(** * DocsGPT answer pipeline: a shallow embedding of [application/app.py]

    The development follows the Flask application module of the
    repository: the vector-store resolver [get_vectorstore], the index
    loader [get_docsearch], the streaming generator [complete_stream] and
    the synchronous endpoint [api_answer].

    Python values are modelled as follows.
    - [str] is [string]; the string methods the module calls
      ([split], [replace], [join]) are written out below.
    - A JSON object / [dict] with string keys is a [gmap string _].
    - Python integers are [Z] (token counts, the history ceiling).
    - An exception is a value of [exn]; a computation that may raise
      returns [exn + A].
    - Mutable objects the module shares with its caller (the history
      list, the conversation collection, the event stream and the calls
      made to collaborators) live in an explicit [world] that is threaded
      through a small state-and-exception monad. *)

From Stdlib Require Import ZArith NArith Ascii String List.
From stdpp Require Import base gmap strings list fin_maps.

Local Open Scope Z_scope.

(** ** Python exceptions raised by the modelled code *)

Inductive exn : Type :=
  | IndexError                      (* list index out of range *)
  | KeyError (key : string)         (* missing dict key *)
  | ValueError (msg : string)
  | UnboundLocalError (var : string)
  | InvalidId (s : string)          (* bson.errors.InvalidId *)
  | CollaboratorError (msg : string). (* raised by FAISS / the LLM backend *)

(** Code that may raise runs in the exception monad [exn + _]. *)

#[export] Instance exn_ret : MRet (sum exn) := fun _ x => inr x.
#[export] Instance exn_bind : MBind (sum exn) := fun _ _ f m =>
  match m with
  | inl e => inl e
  | inr x => f x
  end.

Definition raise {A} (e : exn) : exn + A := inl e.

(** ** String methods *)

Module PyStr.

(** [sep.join(l)] *)
Fixpoint join (sep : string) (l : list string) : string :=
  match l with
  | [] => ""
  | [x] => x
  | x :: rest => x +:+ sep +:+ join sep rest
  end.

(** Left-to-right scan shared by [split] and [replace]: [skip] counts the
    characters of a separator occurrence that still have to be consumed,
    [cur] is the piece read so far. *)
Fixpoint split_aux (sep s : string) (skip : nat) (cur : string) : list string :=
  match s with
  | EmptyString => [cur]
  | String c s' =>
      match skip with
      | S k => split_aux sep s' k cur
      | O =>
          if String.prefix sep s
          then cur :: split_aux sep s' (String.length sep - 1) ""
          else split_aux sep s' O (cur +:+ String c "")
      end
  end.

(** [s.split(sep)] for a non-empty [sep] (Python raises [ValueError] on an
    empty separator; the module only splits on literals). *)
Definition split (s sep : string) : list string := split_aux sep s O "".

(** [s.replace(old, new)] for a non-empty [old]: every non-overlapping
    occurrence, left to right. *)
Fixpoint replace_aux (old new s : string) (skip : nat) : string :=
  match s with
  | EmptyString => ""
  | String c s' =>
      match skip with
      | S k => replace_aux old new s' k
      | O =>
          if String.prefix old s
          then new +:+ replace_aux old new s' (String.length old - 1)
          else String c (replace_aux old new s' O)
      end
  end.

Definition replace (s old new : string) : string := replace_aux old new s O.

(** [l[i]] on a list, raising [IndexError] out of range. *)
Definition index {A} (l : list A) (i : nat) : exn + A :=
  match l !! i with
  | Some x => inr x
  | None => inl IndexError
  end.

(** [l[-1]]. *)
Definition index_last {A} (l : list A) : exn + A :=
  match last l with
  | Some x => inr x
  | None => inl IndexError
  end.

(** [sub in s] for strings. *)
Fixpoint contains (sub s : string) : bool :=
  String.prefix sub s ||
  match s with
  | EmptyString => false
  | String _ s' => contains sub s'
  end.

(** POSIX [os.path.join(a, b)] for two components. *)
Definition path_join (a b : string) : string :=
  if String.prefix "/" b then b
  else if bool_decide (a = "") || String.prefix "/" (String.rev a) then a +:+ b
  else a +:+ "/" +:+ b.

End PyStr.

(** ** [get_vectorstore] (lines 128-142)

    [data] is the request object; only its ["active_docs"] entry is read. *)

Definition get_vectorstore (data : gmap string string) : exn + string :=
  vectorstore ←
    match data !! "active_docs" with
    | Some active_docs =>
        scope ← PyStr.index (PyStr.split active_docs "/") 0;
        vectorstore ←
          (if bool_decide (scope = "local") then
             name ← PyStr.index (PyStr.split active_docs "/") 1;
             if bool_decide (name = "default") then inr ""
             else inr ("indexes/" +:+ active_docs)
           else inr ("vectors/" +:+ active_docs));
        if bool_decide (active_docs = "default") then inr "" else inr vectorstore
    | None => inr ""
    end;
  inr (PyStr.path_join "application" vectorstore).

Definition selector (s : string) : gmap string string := {[ "active_docs" := s ]}.

(** ** Data model *)

(** A history turn is a JSON object; the module reads its ["prompt"] and
    ["response"] entries. *)
Abbreviation turn := (gmap string string).

(** A retrieved passage ([langchain] [Document]). *)
Record Document := {
  page_content : string;
  metadata : gmap string string;
}.

Inductive role := system | user | assistant.

(** A role-tagged chat message: the [{"role": .., "content": ..}] objects of
    the streaming path and the message prompt templates of the synchronous
    path ([SystemMessagePromptTemplate], [HumanMessagePromptTemplate],
    [AIMessagePromptTemplate]). *)
Record message := Msg { msg_role : role; msg_content : string }.

(** The language-model objects the module constructs. *)
Inductive llm :=
  | AzureChatOpenAI
  | ChatOpenAI (model_name : option string)
  | OpenAI
  | HuggingFacePipeline
  | Cohere.

(** The JSON payload of a server-sent event. *)
Inductive payload :=
  | PSource (doc : string) (meta : option (gmap string string))
  | PAnswer (answer : string)
  | PId (id : string)
  | PEnd.

(** One yielded frame: the literal prefix before the JSON payload (the
    source frames are written [data:], the others [data: ]); every frame is
    closed by a blank line. *)
Record sse := Frame { frame_prefix : string; frame_payload : payload }.

Record source_log := { title : string; text : string }.

Record query := {
  q_prompt : string;
  q_response : string;
  q_sources : list source_log;
}.

(** A document of the [conversations] collection. *)
Record conversation := {
  c_user : string;
  c_date : Z;
  c_name : string;
  c_queries : list query;
}.

(** [bson.ObjectId]: a byte string, kept as a number.  The identifiers the
    driver generates have twelve bytes and are kept as the number these
    bytes spell, below [16 ^ 24]; see [Bson.number] for the others. *)
Abbreviation oid := N.

(** A similarity index loaded by [FAISS.load_local]. *)
Record Index := { similarity_search : string → nat → list Document }.

Inductive chain_kind := ConversationalRetrievalChain | VectorDBQA.

(** What [load_qa_chain] is handed as [combine_prompt]: the chat prompt
    [p_chat_combine] (lines 373 and 385), or the text of the template
    itself (line 398). *)
Inductive combine_prompt :=
  | ChatPromptTemplate (messages : list message)
  | TemplateText (template : string).

(** Calls made to collaborators, in the order they were made. *)
Inductive call :=
  | CallLoadLocal (path : string)
  | CallSimilaritySearch (q : string) (k : nat)
  | CallChatCompletion (model : string) (messages : list message) (stream : bool)
  | CallRunChain (kind : chain_kind) (l : llm) (prompt : combine_prompt)
      (question : string)
  | CallPredictMessages (l : llm) (messages : list message)
  | CallUpdateOne (id : oid)
  | CallInsertOne (id : oid).

(** [application.core.settings] and the prompt file read at import time
    are not part of this module; they are parameters of the model. *)
Record Settings := {
  LLM_NAME : string;
  EMBEDDINGS_NAME : string;
  SELF_HOSTED_MODEL : bool;
  OPENAI_API_BASE : option string;
  OPENAI_API_VERSION : option string;
  AZURE_DEPLOYMENT_NAME : option string;
  TOKENS_MAX_HISTORY : Z;
  chat_combine_template : string;
}.

(** The collaborators: the similarity index on disk, the tokenizer, the
    chat-completion endpoint, the [langchain] prompt-template parser and
    chains, and the clock.

    [parse_template] is the parser behind the [from_template] of the
    message prompt templates ([PromptTemplate.from_template]): it reads the
    text as a format string and raises on a text it cannot read, such as
    one with a lone brace. *)
Record Collaborators := {
  load_local : string → exn + Index;
  get_num_tokens : llm → string → Z;
  parse_template : string → exn + unit;
  ChatCompletion_create_stream : string → list message → exn + list (option string);
  ChatCompletion_create : string → list message → exn + string;
  run_chain : chain_kind → llm → combine_prompt → Index → string → exn + string;
  predict_messages : llm → list message → exn + string;
  utcnow : Z;
}.

(** The mutable objects the request handlers touch. *)
Record world := World {
  chat_history : list turn;
  conversations_collection : gmap oid conversation;
  emitted : list sse;
  calls : list call;
}.

(** ** The state-and-exception monad *)

Definition M (A : Type) : Type := world → (exn + A) * world.

#[export] Instance M_ret : MRet M := fun _ x w => (inr x, w).
#[export] Instance M_bind : MBind M := fun _ _ f m w =>
  match m w with
  | (inl e, w') => (inl e, w')
  | (inr x, w') => f x w'
  end.

Definition lift {A} (r : exn + A) : M A := fun w => (r, w).

Definition log (c : call) : M unit := fun w =>
  (inr (), World (chat_history w) (conversations_collection w) (emitted w) (calls w ++ [c])).

Definition yield (e : sse) : M unit := fun w =>
  (inr (), World (chat_history w) (conversations_collection w) (emitted w ++ [e]) (calls w)).

Definition read_history : M (list turn) := fun w => (inr (chat_history w), w).

(** [chat_history.reverse()]: the list object is reversed in place. *)
Definition reverse_history : M unit := fun w =>
  (inr (), World (reverse (chat_history w)) (conversations_collection w) (emitted w) (calls w)).

Definition read_collection : M (gmap oid conversation) := fun w =>
  (inr (conversations_collection w), w).

Definition write_collection (db : gmap oid conversation) : M unit := fun w =>
  (inr (), World (chat_history w) db (emitted w) (calls w)).

(** ** [bson.ObjectId] and the [conversations] collection *)

Module Bson.

Definition hex_val (c : ascii) : option N :=
  let n := N_of_ascii c in
  if ((48 <=? n) && (n <=? 57))%N then Some (n - 48)%N
  else if ((97 <=? n) && (n <=? 102))%N then Some (n - 87)%N
  else if ((65 <=? n) && (n <=? 70))%N then Some (n - 55)%N
  else None.

(** ASCII whitespace: tab, line feed, vertical tab, form feed, carriage
    return and space. *)
Definition is_space (c : ascii) : bool :=
  let n := N_of_ascii c in
  (((9 <=? n) && (n <=? 13)) || (n =? 32))%N.

(** [bytes.fromhex(s)]: two hexadecimal digits per byte; ASCII whitespace
    in front of a byte and after the last one is skipped.  [None] stands
    for its [ValueError]. *)
Fixpoint fromhex (s : string) : option (list N) :=
  match s with
  | EmptyString => Some []
  | String c s' =>
      if is_space c then fromhex s'
      else
        match s' with
        | EmptyString => None
        | String c' s'' =>
            match hex_val c, hex_val c' with
            | Some top, Some bot =>
                match fromhex s'' with
                | Some bytes => Some ((16 * top + bot)%N :: bytes)
                | None => None
                end
            | _, _ => None
            end
        end
  end.

(** The number some bytes spell, most significant byte first. *)
Definition spelled (bytes : list N) : N :=
  foldl (λ acc b, 256 * acc + b)%N 0%N bytes.

(** The number an identifier is kept as.  Twelve bytes are kept as the
    number they spell.  A string with whitespace gives fewer bytes; such an
    identifier is equal to none of twelve bytes, and is kept as a number
    from [16 ^ 24] on, a different one for every byte string. *)
Definition number (bytes : list N) : oid :=
  if Nat.eqb (length bytes) 12 then spelled bytes
  else (16 ^ 24 + 256 ^ N.of_nat (length bytes) + spelled bytes)%N.

(** [ObjectId(s)] for a [str]: a string of 24 characters that
    [bytes.fromhex] accepts; anything else raises [InvalidId]. *)
Definition ObjectId (s : string) : exn + oid :=
  if Nat.eqb (String.length s) 24 then
    match fromhex s with
    | Some bytes => inr (number bytes)
    | None => inl (InvalidId s)
    end
  else inl (InvalidId s).

Definition hex_char (d : N) : ascii :=
  if (d <? 10)%N then ascii_of_N (48 + d) else ascii_of_N (87 + d).

Fixpoint hex_digits (n : nat) (x : N) (acc : string) : string :=
  match n with
  | O => acc
  | S n' => hex_digits n' (x / 16)%N (String (hex_char (x mod 16)%N) acc)
  end.

(** [str(oid)]: 24 lower-case hexadecimal digits. *)
Definition str (x : oid) : string := hex_digits 24 x "".

End Bson.

(** A conversation with one more query at the end. *)
Definition pushed (c : conversation) (q : query) : conversation :=
  {| c_user := c_user c; c_date := c_date c; c_name := c_name c;
     c_queries := c_queries c ++ [q] |}.

(** [update_one({"_id": id}, {"$push": {"queries": q}})] without [upsert]:
    the matching document gets [q] appended to its [queries]; when no
    document matches nothing is written and nothing is raised. *)
Definition update_one_push (id : oid) (q : query) : M unit :=
  log (CallUpdateOne id);;
  db ← read_collection;
  match db !! id with
  | Some c => write_collection (<[id := pushed c q]> db)
  | None => mret ()
  end.

(** [insert_one(doc).inserted_id]: the driver picks an identifier that is
    not in the collection. *)
Definition insert_one (c : conversation) : M oid :=
  db ← read_collection;
  let id := fresh (dom db) in
  log (CallInsertOne id);;
  write_collection (<[id := c]> db);;
  mret id.

(** ** The request handlers *)

Definition newline : string := String (ascii_of_nat 10) "".

(** Python truthiness of an optional setting. *)
Definition truthy (o : option string) : bool :=
  match o with
  | Some s => negb (bool_decide (s = ""))
  | None => false
  end.

Section Handlers.

Context (cfg : Settings) (C : Collaborators).

(** Lines 47-50. *)
Definition gpt_model : string :=
  if bool_decide (LLM_NAME cfg = "gpt4") then "gpt-4" else "gpt-3.5-turbo".

(** Lines 302-303. *)
Definition is_azure_configured : bool :=
  truthy (OPENAI_API_BASE cfg) && truthy (OPENAI_API_VERSION cfg)
  && truthy (AZURE_DEPLOYMENT_NAME cfg).

(** [get_docsearch] (lines 145-159): one [FAISS.load_local] per supported
    embeddings name; for any other name the local [docsearch] is never
    bound. *)
Definition get_docsearch (vectorstore : string) : M Index :=
  if bool_decide (EMBEDDINGS_NAME cfg = "openai_text-embedding-ada-002")
     || bool_decide (EMBEDDINGS_NAME cfg = "huggingface_sentence-transformers/all-mpnet-base-v2")
     || bool_decide (EMBEDDINGS_NAME cfg = "huggingface_hkunlp/instructor-large")
     || bool_decide (EMBEDDINGS_NAME cfg = "cohere_medium")
  then log (CallLoadLocal vectorstore);; lift (load_local C vectorstore)
  else lift (raise (UnboundLocalError "docsearch")).

(** [docsearch.similarity_search(question, k=k)]. *)
Definition search (docsearch : Index) (question : string) (k : nat) : M (list Document) :=
  log (CallSimilaritySearch question k);;
  mret (similarity_search docsearch question k).

(** *** History budgeting in [complete_stream]

    The body of [for i in chat_history] (lines 218-223): the messages are
    plain objects, the response is tagged [system]. *)
Definition budget_step (l : llm) (st : Z * list message) (i : turn)
    : Z * list message :=
  let '(tokens_current_history, messages_combine) := st in
  match i !! "prompt", i !! "response" with
  | Some prompt, Some response =>
      let tokens_batch := get_num_tokens C l prompt + get_num_tokens C l response in
      if bool_decide (tokens_current_history + tokens_batch < TOKENS_MAX_HISTORY cfg)
      then (tokens_current_history + tokens_batch,
            messages_combine ++ [Msg user prompt; Msg system response])
      else st
  | _, _ => st
  end.

(** Lines 214-223: reset the counter, reverse the caller's list in place,
    then walk the reversed list. *)
Definition budget_history (l : llm) (messages_combine : list message)
    : M (list message) :=
  let tokens_current_history := 0 in
  reverse_history;;
  history ← read_history;
  mret (foldl (budget_step l) (tokens_current_history, messages_combine) history).2.

(** *** [complete_stream] (lines 182-265) *)

(** Lines 204-211. *)
Fixpoint stream_sources (docs : list Document) (source_log_docs : list source_log)
    : M (list source_log) :=
  match docs with
  | [] => mret source_log_docs
  | doc :: rest =>
      '(data, entry) ←
        (if bool_decide (metadata doc ≠ ∅) then
           let data := PSource (page_content doc) (Some (metadata doc)) in
           match metadata doc !! "title" with
           | Some t =>
               name ← lift (PyStr.index_last (PyStr.split t "/"));
               mret (data, {| title := name; text := page_content doc |})
           | None => lift (raise (KeyError "title"))
           end
         else
           mret (PSource (page_content doc) None,
                 {| title := page_content doc; text := page_content doc |}));
      yield (Frame "data:" data);;
      stream_sources rest (source_log_docs ++ [entry])
  end.

(** Lines 227-233. *)
Fixpoint stream_completion (completion : list (option string)) (reponse_full : string)
    : M string :=
  match completion with
  | [] => mret reponse_full
  | line :: rest =>
      match line with
      | Some content =>
          yield (Frame "data: " (PAnswer content));;
          stream_completion rest (reponse_full +:+ content)
      | None => stream_completion rest reponse_full
      end
  end.

Definition summary_instruction : string :=
  "Summarise following conversation in no more than 3 words, respond ONLY with the summary, use the same language as the system".

Definition summary_request (question reponse_full : string) : string :=
  "Summarise following conversation in no more than 3 words, respond ONLY with the summary, use the same language as the system "
  +:+ newline +:+ newline +:+ "User: " +:+ question +:+ newline +:+ newline
  +:+ "AI: " +:+ reponse_full.

(** Lines 213-224: the history part of the prompt and the closing user
    message. *)
Definition stream_messages (l : llm) (messages_combine : list message)
    (question : string) : M (list message) :=
  chat_history ← read_history;
  messages_combine ←
    (if bool_decide (1 < length chat_history)%nat
     then budget_history l messages_combine
     else mret messages_combine);
  mret (messages_combine ++ [Msg user question]).

(** Lines 235-259: save the conversation to the database. *)
Definition stream_save (question reponse_full : string)
    (source_log_docs : list source_log) (conversation_id : option string) : M string :=
  let q := {| q_prompt := question; q_response := reponse_full;
              q_sources := source_log_docs |} in
  match conversation_id with
  | Some cid =>
      id ← lift (Bson.ObjectId cid);
      update_one_push id q;;
      mret cid
  | None =>
      let messages_summary :=
        [Msg assistant (summary_request question reponse_full);
         Msg user summary_instruction] in
      log (CallChatCompletion "gpt-3.5-turbo" messages_summary false);;
      name ← lift (ChatCompletion_create C "gpt-3.5-turbo" messages_summary);
      id ← insert_one {| c_user := "local"; c_date := utcnow C; c_name := name;
                         c_queries := [q] |};
      mret (Bson.str id)
  end.

Definition complete_stream (question : string) (docsearch : Index)
    (conversation_id : option string) : M unit :=
  let l := if is_azure_configured then AzureChatOpenAI else ChatOpenAI None in
  docs ← search docsearch question 2;
  let docs_together := PyStr.join newline (page_content <$> docs) in
  let p_chat_combine :=
    PyStr.replace (chat_combine_template cfg) "{summaries}" docs_together in
  let messages_combine := [Msg system p_chat_combine] in
  source_log_docs ← stream_sources docs [];
  messages_combine ← stream_messages l messages_combine question;
  log (CallChatCompletion gpt_model messages_combine true);;
  completion ← lift (ChatCompletion_create_stream C gpt_model messages_combine);
  reponse_full ← stream_completion completion "";
  conversation_id ← stream_save question reponse_full source_log_docs conversation_id;
  yield (Frame "data: " (PId conversation_id));;
  yield (Frame "data: " PEnd).

(** [stream] (lines 268-299), after the request fields have been read:
    [data] holds the string-valued entries of the request object.  The
    history parsed from the request is the [chat_history] of the world.
    The credentials read from the request or the settings are handed to
    the collaborators and decide nothing here; they are left out. *)
Definition stream (question : string) (conversation_id : option string)
    (data : gmap string string) : M unit :=
  vectorstore ←
    match data !! "active_docs" with
    | Some active_docs => lift (get_vectorstore {[ "active_docs" := active_docs ]})
    | None => mret ""
    end;
  docsearch ← get_docsearch vectorstore;
  complete_stream question docsearch conversation_id.

(** *** [api_answer] (lines 306-465) *)

Record result := {
  r_answer : string;
  r_sources : list source_log;
  r_conversation_id : string;
}.

(** What the endpoint hands back: the result object, or
    [bad_request(500, str(e))].  [bad_request] lives in
    [application.error], outside this module; its response is kept as the
    status and the exception it was built from. *)
Inductive response :=
  | Ok (r : result)
  | bad_request (status : Z) (e : exn).

(** Lines 415-420. *)
Fixpoint collect_sources (sources : list Document) (sources_doc : list source_log)
    : exn + list source_log :=
  match sources with
  | [] => inr sources_doc
  | doc :: rest =>
      entry ←
        (if bool_decide (metadata doc ≠ ∅) then
           match metadata doc !! "title" with
           | Some t => inr {| title := t; text := page_content doc |}
           | None => raise (KeyError "title")
           end
         else inr {| title := page_content doc; text := page_content doc |});
      collect_sources rest (sources_doc ++ [entry])
  end.

(** Lines 406-412: the formatting of the chain output.  A Rocq string
    literal has no escapes: ["\n"] below is the two characters backslash
    and [n], the Python literal ["\\n"]. *)
Definition format_answer (answer : string) : string :=
  let answer := PyStr.replace answer "\n" newline in
  match PyStr.index (PyStr.split answer "SOURCES:") 0 with
  | inr head => head
  | inl _ => answer
  end.

(** *** The chat prompt of [api_answer] (lines 348-361) *)

(** [SystemMessagePromptTemplate.from_template], its [Human..] and [AI..]
    siblings: the text is parsed as a prompt template, which may raise; the
    message prompt template made of an accepted text keeps the text as it
    is. *)
Definition from_template (r : role) (template : string) : exn + message :=
  parse_template C template;;
  inr (Msg r template).

(** The body of [for i in history] (lines 354-359). *)
Definition answer_budget_step (l : llm) (st : Z * list message) (i : turn)
    : exn + (Z * list message) :=
  let '(tokens_current_history, messages_combine) := st in
  match i !! "prompt", i !! "response" with
  | Some prompt, Some response =>
      let tokens_batch := get_num_tokens C l prompt + get_num_tokens C l response in
      if bool_decide (tokens_current_history + tokens_batch < TOKENS_MAX_HISTORY cfg)
      then
        human ← from_template user prompt;
        ai ← from_template assistant response;
        inr (tokens_current_history + tokens_batch, messages_combine ++ [human; ai])
      else inr st
  | _, _ => inr st
  end.

(** The loop itself: it breaks off at the first text the parser rejects. *)
Fixpoint answer_budget_loop (l : llm) (st : Z * list message) (history : list turn)
    : exn + (Z * list message) :=
  match history with
  | [] => inr st
  | i :: rest =>
      st ← answer_budget_step l st i;
      answer_budget_loop l st rest
  end.

(** Lines 350-359: reset the counter, reverse the caller's list in place,
    then walk the reversed list. *)
Definition answer_budget_history (l : llm) (messages_combine : list message)
    : M (list message) :=
  let tokens_current_history := 0 in
  reverse_history;;
  history ← read_history;
  st ← lift (answer_budget_loop l (tokens_current_history, messages_combine) history);
  mret st.2.

(** Lines 348-360.  The closing template is the literal [{question}],
    which is a well-formed template. *)
Definition answer_messages (l : llm) : M (list message) :=
  system_message ← lift (from_template system (chat_combine_template cfg));
  let messages_combine := [system_message] in
  history ← read_history;
  messages_combine ←
    (if bool_decide (history ≠ [])
     then answer_budget_history l messages_combine
     else mret messages_combine);
  mret (messages_combine ++ [Msg user "{question}"]).

(** Lines 424-451: append to the conversation, or create it. *)
Definition answer_save (l : llm) (question answer : string)
    (sources : list source_log) (conversation_id : option string) : M string :=
  let q := {| q_prompt := question; q_response := answer; q_sources := sources |} in
  match conversation_id with
  | Some cid =>
      id ← lift (Bson.ObjectId cid);
      update_one_push id q;;
      mret cid
  | None =>
      let messages_summary :=
        [Msg assistant (summary_request question answer);
         Msg user summary_instruction] in
      log (CallPredictMessages l messages_summary);;
      completion ← lift (predict_messages C l messages_summary);
      id ← insert_one {| c_user := "local"; c_date := utcnow C; c_name := completion;
                         c_queries := [q] |};
      mret (Bson.str id)
  end.

(** Lines 336-369: the model selection. *)
Definition select_llm : M (llm * option (list message)) :=
  if bool_decide (LLM_NAME cfg = "openai_chat") then
    let l := if is_azure_configured then AzureChatOpenAI
             else ChatOpenAI (Some gpt_model) in
    p_chat_combine ← answer_messages l;
    mret (l, Some p_chat_combine)
  else if bool_decide (LLM_NAME cfg = "openai") then mret (OpenAI, None)
  else if SELF_HOSTED_MODEL cfg then mret (HuggingFacePipeline, None)
  else if bool_decide (LLM_NAME cfg = "cohere") then mret (Cohere, None)
  else lift (raise (ValueError "unknown LLM model")).

(** Lines 373-382 and 385-394: the conversational chain over
    [p_chat_combine], a local that only the [openai_chat] branch of the
    selection binds. *)
Definition run_conversational_chain (l : llm) (p_chat_combine : option (list message))
    (docsearch : Index) (question : string) : M string :=
  match p_chat_combine with
  | Some messages =>
      let prompt := ChatPromptTemplate messages in
      log (CallRunChain ConversationalRetrievalChain l prompt question);;
      lift (run_chain C ConversationalRetrievalChain l prompt docsearch question)
  | None => lift (raise (UnboundLocalError "p_chat_combine"))
  end.

(** Lines 371-401: build the chain and run it.  The last branch hands the
    text of the template to [load_qa_chain], not a prompt. *)
Definition run_answer_chain (l : llm) (p_chat_combine : option (list message))
    (docsearch : Index) (question : string) : M string :=
  if bool_decide (LLM_NAME cfg = "openai_chat") then
    run_conversational_chain l p_chat_combine docsearch question
  else if SELF_HOSTED_MODEL cfg then
    run_conversational_chain l p_chat_combine docsearch question
  else
    let prompt := TemplateText (chat_combine_template cfg) in
    log (CallRunChain VectorDBQA l prompt question);;
    lift (run_chain C VectorDBQA l prompt docsearch question).

(** The body of the [try] block (lines 326-460). *)
Definition api_answer_try (question : string) (conversation_id : option string)
    (data : gmap string string) : M result :=
  vectorstore ← lift (get_vectorstore data);
  docsearch ← get_docsearch vectorstore;
  '(l, p_chat_combine) ← select_llm;
  answer ← run_answer_chain l p_chat_combine docsearch question;
  let answer := format_answer answer in
  sources ← search docsearch question 2;
  sources_doc ← lift (collect_sources sources []);
  conversation_id ← answer_save l question answer sources_doc conversation_id;
  mret {| r_answer := answer; r_sources := sources_doc;
          r_conversation_id := conversation_id |}.

(** Lines 326 and 461-465: any exception becomes a 500 response. *)
Definition api_answer (question : string) (conversation_id : option string)
    (data : gmap string string) (w : world) : response * world :=
  match api_answer_try question conversation_id data w with
  | (inr r, w') => (Ok r, w')
  | (inl e, w') => (bad_request 500 e, w')
  end.

End Handlers.

(** ** The conversation and index maintenance endpoints *)

(** Exceptions of these endpoints: those of [exn], and the [TypeError] of
    subscripting [None]. *)
Inductive failure :=
  | Raised (e : exn)
  | TypeError (msg : string).

(** [ObjectId(request.args.get("id"))]: an absent argument is [None], for
    which [ObjectId] makes a new identifier, [generated]. *)
Definition arg_ObjectId (generated : oid) (id : option string) : exn + oid :=
  match id with
  | Some s => Bson.ObjectId s
  | None => inr generated
  end.

(** [get_single_conversation] (lines 694-699): [find_one] gives [None] for
    an identifier that names no conversation, and [None['queries']]
    raises. *)
Definition get_single_conversation (generated : oid) (id : option string)
    (w : world) : failure + list query :=
  match arg_ObjectId generated id with
  | inl e => inl (Raised e)
  | inr conversation_id =>
      match conversations_collection w !! conversation_id with
      | Some conversation => inr (c_queries conversation)
      | None => inl (TypeError "'NoneType' object is not subscriptable")
      end
  end.

(** [delete_conversation] (lines 701-712): [delete_one] by identifier. *)
Definition delete_conversation (generated : oid) (id : option string)
    (w : world) : (exn + string) * world :=
  match arg_ObjectId generated id with
  | inl e => (inl e, w)
  | inr conversation_id =>
      (inr "ok",
       World (chat_history w) (delete conversation_id (conversations_collection w))
         (emitted w) (calls w))
  end.

(** What [shutil.rmtree] did. *)
Inductive rmtree_result :=
  | Removed
  | FileNotFoundError
  | RmtreeError (e : exn).

(** [delete_one({"location": path})] on the [vectors] collection: the
    first matching document goes. *)
Fixpoint delete_one_location (path : string) (vectors : list (gmap string string))
    : list (gmap string string) :=
  match vectors with
  | [] => []
  | index :: rest =>
      if bool_decide (index !! "location" = Some path) then rest
      else index :: delete_one_location path rest
  end.

(** [delete_old] (lines 660-679).  [secure_filename] is werkzeug's and
    [rmtree] stands for the file system; the result holds the response,
    the [vectors] collection afterwards and the paths handed to
    [shutil.rmtree]. *)
Definition delete_old (secure_filename : string → string)
    (rmtree : string → rmtree_result) (path : string)
    (vectors : list (gmap string string))
    : (exn + string) * list (gmap string string) * list string :=
  let dirs := PyStr.split path "/" in
  let dirs_clean := secure_filename <$> drop 1 dirs in
  match PyStr.index dirs 0 with
  | inl e => (inl e, vectors, [])
  | inr first =>
      if negb (bool_decide (first = "indexes") || bool_decide (first = "vectors"))
      then (inr "error", vectors, [])
      else
        let path_clean := PyStr.join "/" dirs in
        let vectors := delete_one_location path vectors in
        match rmtree path_clean with
        | Removed | FileNotFoundError => (inr "ok", vectors, [path_clean])
        | RmtreeError e => (inl e, vectors, [path_clean])
        end
  end.

(** ** Specification-side definitions *)

(** The text of [s] before the first occurrence of [sep]. *)
Fixpoint before_first (sep s : string) : string :=
  if String.prefix sep s then ""
  else match s with
       | EmptyString => ""
       | String c s' => String c (before_first sep s')
       end.

(** The resolved path of the built-in index. *)
Definition default_path : string := "application/".

(** A selector has the documented shape when it is the bare [default] or
    reads [<scope>/<name>]. *)
Definition well_shaped (sel : string) : bool :=
  bool_decide (sel = "default") || PyStr.contains "/" sel.

Section BudgetSpec.

Context (cost : string → Z) (max_tokens : Z).

(** The cost of a turn: the cost of its prompt plus the cost of its
    response, for a turn that has both. *)
Definition turn_cost (t : turn) : option Z :=
  match t !! "prompt", t !! "response" with
  | Some p, Some r => Some (cost p + cost r)
  | _, _ => None
  end.

(** [scan total turns kept]: scanning [turns] (most recent first) with
    running total [total] keeps exactly [kept].  A turn is kept when the
    running total plus its cost stays strictly below the ceiling; after a
    turn that is not kept the scan goes on with the older ones. *)
Inductive scan : Z → list turn → list turn → Prop :=
  | scan_done total : scan total [] []
  | scan_keep total t older kept c :
      turn_cost t = Some c → total + c < max_tokens →
      scan (total + c) older kept → scan total (t :: older) (t :: kept)
  | scan_over total t older kept c :
      turn_cost t = Some c → ¬ (total + c < max_tokens) →
      scan total older kept → scan total (t :: older) kept
  | scan_skip total t older kept :
      turn_cost t = None →
      scan total older kept → scan total (t :: older) kept.

(** The same scan as a function. *)
Fixpoint keep (total : Z) (turns : list turn) : list turn :=
  match turns with
  | [] => []
  | t :: older =>
      match turn_cost t with
      | Some c =>
          if bool_decide (total + c < max_tokens) then t :: keep (total + c) older
          else keep total older
      | None => keep total older
      end
  end.

End BudgetSpec.

(** The two messages a kept turn contributes to the prompt. *)
Definition turn_messages (mk_response : string → message) (t : turn) : list message :=
  match t !! "prompt", t !! "response" with
  | Some p, Some r => [Msg user p; mk_response r]
  | _, _ => []
  end.

(** The frame announcing a retrieved passage. *)
Definition source_frame (doc : Document) : sse :=
  Frame "data:"
    (PSource (page_content doc)
       (if bool_decide (metadata doc ≠ ∅) then Some (metadata doc) else None)).

Definition answer_frame (content : string) : sse := Frame "data: " (PAnswer content).

(** The text increments of a completion: the deltas that carry content. *)
Definition increments (completion : list (option string)) : list string :=
  omap id completion.

Definition with_calls (w : world) (cs : list call) : world :=
  World (chat_history w) (conversations_collection w) (emitted w) (calls w ++ cs).

Definition with_emitted (w : world) (frames : list sse) : world :=
  World (chat_history w) (conversations_collection w) (emitted w ++ frames) (calls w).

(** The full text of a sequence of increments. *)
Definition joined (parts : list string) : string := foldr String.append "" parts.

(** What is in the collection once the handler has saved the query [q]
    and reports the identifier [id]: with an identifier in the request the
    document it names, if there is one, has [q] pushed; without one a new
    document holding [q] alone is stored under a fresh identifier. *)
Definition saved (C : Collaborators) (conversation_id : option string) (q : query)
    (db db' : gmap oid conversation) (id : string) : Prop :=
  match conversation_id with
  | Some cid =>
      id = cid ∧ ∃ o, Bson.ObjectId cid = inr o ∧
        db' = match db !! o with
              | Some c => <[o := pushed c q]> db
              | None => db
              end
  | None =>
      ∃ name, id = Bson.str (fresh (dom db)) ∧
        db' = <[fresh (dom db) :=
                  {| c_user := "local"; c_date := utcnow C; c_name := name;
                     c_queries := [q] |}]> db
  end.

(** Two worlds that differ at most in the recorded calls. *)
Definition only_calls (w w' : world) : Prop :=
  chat_history w' = chat_history w
  ∧ conversations_collection w' = conversations_collection w
  ∧ emitted w' = emitted w.

(** The resolution rules of the vector-store resolver, in the order the
    specification lists them, for a selector of the documented shape: the
    bare [default], then scope [local] with name [default], then scope
    [local] with another name, then any other scope.  The rules are silent
    on a selector that has no name part. *)
Definition resolve_rules (sel : string) : option string :=
  if bool_decide (sel = "default") then Some default_path
  else match PyStr.split sel "/" with
       | scope :: name :: _ =>
           if bool_decide (scope = "local") then
             if bool_decide (name = "default") then Some default_path
             else Some ("application/indexes/" +:+ sel)
           else Some ("application/vectors/" +:+ sel)
       | _ => None
       end.

(** The resolver property as the specification words it: the three
    default selectors agree, and a selector that cannot be resolved (it is
    not of the documented shape) gives the default path instead of an
    error. *)
Definition resolver_never_raises : Prop :=
  get_vectorstore (selector "local/default") = get_vectorstore (selector "default")
  ∧ get_vectorstore (selector "default") = get_vectorstore ∅
  ∧ ∀ sel, well_shaped sel = false → get_vectorstore (selector sel) = inr default_path.

(** A turn is skipped by the budgeting loop when the loop body leaves the
    running total and the prompt as they were, whatever they are: in the
    streaming handler, and in the synchronous one. *)
Definition skips (cfg : Settings) (C : Collaborators) (l : llm) (t : turn) : Prop :=
  ∀ st, budget_step cfg C l st t = st.

Definition answer_skips (cfg : Settings) (C : Collaborators) (l : llm) (t : turn)
    : Prop :=
  ∀ st, answer_budget_step cfg C l st t = inr st.

(** The skipping rule as the specification words it: a turn is skipped
    exactly when it lacks both fields. *)
Definition skipped_iff_lacks_both : Prop :=
  ∀ cfg C l t,
    (skips cfg C l t ↔ (t !! "prompt" = None ∧ t !! "response" = None))
    ∧ (answer_skips cfg C l t ↔ (t !! "prompt" = None ∧ t !! "response" = None)).

(** The caller's list after [reverse()]. *)
Definition reversed (w : world) : world :=
  World (reverse (chat_history w)) (conversations_collection w) (emitted w) (calls w).

(** The budgeting property as the specification words it: for a history
    of more than one turn the scan runs most recent first, and the kept
    turns stand in the prompt oldest first. *)
Definition kept_turns_oldest_first : Prop :=
  ∀ cfg C l messages_combine question w,
    (1 < length (chat_history w))%nat →
    ∃ kept,
      scan (get_num_tokens C l) (TOKENS_MAX_HISTORY cfg) 0 (reverse (chat_history w)) kept
      ∧ (stream_messages cfg C l messages_combine question w).1
        = inr (messages_combine
               ++ flat_map (turn_messages (Msg system)) (reverse kept)
               ++ [Msg user question]).

(** The short-history rule as the specification words it: a history of at
    most one turn is handed on untouched, with no budget evaluation, and
    its turn still stands in the prompt. *)
Definition short_history_untouched : Prop :=
  ∀ cfg C l messages_combine question w,
    (length (chat_history w) ≤ 1)%nat →
    stream_messages cfg C l messages_combine question w
    = (inr (messages_combine
            ++ flat_map (turn_messages (Msg system)) (chat_history w)
            ++ [Msg user question]), w)
    ∧ answer_messages cfg C l w
      = (inr ([Msg system (chat_combine_template cfg)]
              ++ flat_map (turn_messages (Msg assistant)) (chat_history w)
              ++ [Msg user "{question}"]), w).

(** The reversal property as the specification words it: when the history
    has more than one turn, the caller's list is reversed after the
    operation, be it the streaming or the synchronous one. *)
Definition history_always_reversed : Prop :=
  ∀ cfg C question idx cid data w,
    (1 < length (chat_history w))%nat →
    (∀ w', complete_stream cfg C question idx cid w = (inr (), w') →
           chat_history w' = reverse (chat_history w))
    ∧ (∀ resp w', api_answer cfg C question cid data w = (resp, w') →
                  chat_history w' = reverse (chat_history w)).

(** The texts of a turn that has both fields, in the order the synchronous
    handler parses them. *)
Definition turn_texts (t : turn) : list string :=
  match t !! "prompt", t !! "response" with
  | Some p, Some r => [p; r]
  | _, _ => []
  end.

(** Parsing texts as prompt templates, one after the other: the first
    error, if there is one. *)
Fixpoint parse_all (C : Collaborators) (texts : list string) : exn + unit :=
  match texts with
  | [] => inr ()
  | s :: rest => parse_template C s;; parse_all C rest
  end.

(** What the synchronous handler assembles from the kept turns once the
    system template is parsed.  The texts of the kept turns are parsed in
    the order the turns were walked; when the parser accepts them all, the
    prompt is the system message, the messages of the kept turns in that
    order and the question placeholder; otherwise the first error of the
    parser is raised. *)
Definition assembled (cfg : Settings) (C : Collaborators) (kept : list turn)
    : exn + list message :=
  parse_all C (flat_map turn_texts kept);;
  inr ([Msg system (chat_combine_template cfg)]
       ++ flat_map (turn_messages (Msg assistant)) kept
       ++ [Msg user "{question}"]).

(** Whether a turn on its own fits under the history ceiling. *)
Definition fits (cfg : Settings) (C : Collaborators) (l : llm) (t : turn) : bool :=
  match turn_cost (get_num_tokens C l) t with
  | Some c => bool_decide (c < TOKENS_MAX_HISTORY cfg)
  | None => false
  end.

(** The marker that opens an appended sources section. *)
Definition marker : string := "SOURCES:".

(** The answer text a client reads off a stream: its answer frames, put
    together in order. *)
Definition streamed_answer (frames : list sse) : string :=
  joined (omap (λ f, match frame_payload f with
                     | PAnswer a => Some a
                     | _ => None
                     end) frames).

(** The marker property as the specification words it, for both
    handlers: whatever the backend produced, the answer handed back
    carries no marker, and an output without marker is handed back
    unchanged. *)
Definition answer_free_of_marker : Prop :=
  (∀ cfg C question cid data w r w',
     api_answer cfg C question cid data w = (Ok r, w') →
     PyStr.contains marker (r_answer r) = false)
  ∧ (∀ raw, PyStr.contains marker raw = false → format_answer raw = raw)
  ∧ (∀ cfg C question idx cid history db w',
       complete_stream cfg C question idx cid (World history db [] []) = (inr (), w') →
       PyStr.contains marker (streamed_answer (emitted w')) = false).

(** The append rule as the specification words it: an identifier that
    names no conversation makes the save step fail, and nothing is
    created. *)
Definition unresolved_append_fails : Prop :=
  ∀ C l question answer sources cid o w,
    Bson.ObjectId cid = inr o →
    conversations_collection w !! o = None →
    ∃ e w',
      answer_save C l question answer sources (Some cid) w = (inl e, w')
      ∧ conversations_collection w' = conversations_collection w.

(** The model selections [api_answer] knows. *)
Definition supported (cfg : Settings) : bool :=
  bool_decide (LLM_NAME cfg = "openai_chat")
  || bool_decide (LLM_NAME cfg = "openai")
  || SELF_HOSTED_MODEL cfg
  || bool_decide (LLM_NAME cfg = "cohere").

(** The configuration rule as the specification words it: with an
    unsupported selection the handler fails before any call to a
    collaborator. *)
Definition unsupported_fails_before_io : Prop :=
  ∀ cfg C question cid data w resp w',
    supported cfg = false →
    api_answer cfg C question cid data w = (resp, w') →
    (∃ e, resp = bad_request 500 e) ∧ calls w' = calls w.

(** ** A concrete deployment, used to exercise the handlers *)

Module Demo.

Definition settings (llm_name : string) : Settings := {|
  LLM_NAME := llm_name;
  EMBEDDINGS_NAME := "openai_text-embedding-ada-002";
  SELF_HOSTED_MODEL := false;
  OPENAI_API_BASE := None;
  OPENAI_API_VERSION := None;
  AZURE_DEPLOYMENT_NAME := None;
  TOKENS_MAX_HISTORY := 150;
  chat_combine_template := "Use this: {summaries}";
|}.

Definition passages : list Document :=
  [ {| page_content := "P1"; metadata := {[ "title" := "docs/a.md" ]} |};
    {| page_content := "P2"; metadata := ∅ |} ].

Definition docsearch : Index := {| similarity_search := fun _ k => take k passages |}.

(** A stand-in for the format-string parser: a brace is doubled, or opens
    or closes a field as in [{summaries}]; a field is taken to be a plain
    name.  [in_field] tells whether a field is open. *)
Fixpoint parse_format (s : string) (in_field : bool) : exn + unit :=
  match s with
  | EmptyString =>
      if in_field then inl (ValueError "expected '}' before end of string")
      else inr ()
  | String c s' =>
      if in_field then
        if bool_decide (c = "}"%char) then parse_format s' false
        else if bool_decide (c = "{"%char)
             then inl (ValueError "unexpected '{' in field name")
             else parse_format s' true
      else if bool_decide (c = "{"%char) then
        match s' with
        | EmptyString => inl (ValueError "Single '{' encountered in format string")
        | String c' s'' =>
            if bool_decide (c' = "{"%char) then parse_format s'' false
            else parse_format s' true
        end
      else if bool_decide (c = "}"%char) then
        match s' with
        | EmptyString => inl (ValueError "Single '}' encountered in format string")
        | String c' s'' =>
            if bool_decide (c' = "}"%char) then parse_format s'' false
            else inl (ValueError "Single '}' encountered in format string")
        end
      else parse_format s' false
  end.

(** One token per character; the model streams [deltas] and the
    conversational chain answers [chain_answer]; [load_qa_chain] refuses a
    [combine_prompt] that is not a prompt. *)
Definition backend (deltas : list (option string)) (chain_answer : string)
    : Collaborators := {|
  load_local := fun _ => inr docsearch;
  get_num_tokens := fun _ s => Z.of_nat (String.length s);
  parse_template := fun s => parse_format s false;
  ChatCompletion_create_stream := fun _ _ => inr deltas;
  ChatCompletion_create := fun _ _ => inr "Meaning of life";
  run_chain := fun _ _ prompt _ _ =>
    match prompt with
    | ChatPromptTemplate _ => inr chain_answer
    | TemplateText _ => inl (CollaboratorError "combine_prompt is not a prompt template")
    end;
  predict_messages := fun _ _ => inr "Meaning of life";
  utcnow := 0;
|}.

Definition deltas42 : list (option string) :=
  [None; Some "The "; Some "answer "; Some "is 42."; None].

Definition turn1 : turn := {[ "prompt" := "a"; "response" := "b" ]}.
Definition turn2 : turn := {[ "prompt" := "c"; "response" := "d" ]}.
Definition prompt_only : turn := {[ "prompt" := "pending" ]}.

(** A turn whose prompt ends in a lone brace. *)
Definition brace_turn : turn := {[ "prompt" := "use {"; "response" := "ok" ]}.

Definition start (history : list turn) : world := World history ∅ [] [].

Definition absent_id : string := "0000000000000000000000ff".

Definition deltas_with_sources : list (option string) :=
  [Some "It is 42. "; Some "SOURCES: a.md"].

(** A chain output with an escaped newline and a sources section. *)
Definition chain_output : string := "It is 42.\nSOURCES: a.md".

End Demo.

(** ** Further specification-side definitions *)

(** A frame that carries content: a passage or an answer increment. *)
Definition is_content_frame (f : sse) : bool :=
  match frame_payload f with
  | PSource _ _ | PAnswer _ => true
  | PId _ | PEnd => false
  end.

(** The cost a turn adds to the budget: nothing when a field is missing. *)
Definition charged (cost : string → Z) (t : turn) : Z :=
  match turn_cost cost t with
  | Some c => c
  | None => 0
  end.

(** The sum of the costs of the turns that have both fields. *)
Definition total_cost (cost : string → Z) (turns : list turn) : Z :=
  foldr (λ t acc, charged cost t + acc) 0 turns.

(** A turn that has both fields. *)
Definition complete (t : turn) : Prop :=
  is_Some (t !! "prompt") ∧ is_Some (t !! "response").

(** The first [k] characters of [s] removed. *)
Fixpoint string_drop (k : nat) (s : string) : string :=
  match k, s with
  | O, _ => s
  | S k', String _ s' => string_drop k' s'
  | S _, EmptyString => EmptyString
  end.


(** The entry the synchronous handler returns for a passage. *)
Definition answer_entry (doc : Document) : source_log :=
  {| title := default (page_content doc) (metadata doc !! "title");
     text := page_content doc |}.

(** Twelve bytes hold the numbers below [16 ^ 24]. *)
Definition oid_bound : N := (16 ^ 24)%N.

(** The number a string of hexadecimal digits spells, continuing from
    [acc]. *)
Fixpoint hex_parse (s : string) (acc : N) : option N :=
  match s with
  | EmptyString => Some acc
  | String c s' =>
      match Bson.hex_val c with
      | Some d => hex_parse s' (16 * acc + d)%N
      | None => None
      end
  end.


(** An identifier with whitespace in it. *)
Definition spaced_id : string := "00000000000000000000ff  ".

(** [keeps P m]: whatever its outcome, a run of [m] takes a world to a
    world related to it by [P]. *)
Definition keeps {A} (P : world → world → Prop) (m : M A) : Prop :=
  ∀ w r w', m w = (r, w') → P w w'.

(** The recorded calls only grow. *)
Definition calls_grow (w w' : world) : Prop := ∃ cs, calls w' = calls w ++ cs.

Definition same_history (w w' : world) : Prop := chat_history w' = chat_history w.

Definition same_collection (w w' : world) : Prop :=
  conversations_collection w' = conversations_collection w.

(** The frames only grow, by content frames. *)
Definition content_grows (w w' : world) : Prop :=
  ∃ frames, emitted w' = emitted w ++ frames
            ∧ Forall (λ f, is_content_frame f = true) frames.

(** The embeddings selections [get_docsearch] knows. *)
Definition embeddings_supported (cfg : Settings) : bool :=
  bool_decide (EMBEDDINGS_NAME cfg = "openai_text-embedding-ada-002")
  || bool_decide (EMBEDDINGS_NAME cfg = "huggingface_sentence-transformers/all-mpnet-base-v2")
  || bool_decide (EMBEDDINGS_NAME cfg = "huggingface_hkunlp/instructor-large")
  || bool_decide (EMBEDDINGS_NAME cfg = "cohere_medium").

(** [fails_keep P m]: a run of [m] that raises takes a world to a world
    related to it by [P]. *)
Definition fails_keep {A} (P : world → world → Prop) (m : M A) : Prop :=
  ∀ w e w', m w = (inl e, w') → P w w'.

Definition never_fails {A} (m : M A) : Prop := ∀ w e w', m w ≠ (inl e, w').

(** The collection [db'] is [db] with the query [q] pushed on the
    conversation [c] stored under [o], and nothing else changed. *)
Definition extended (o : oid) (c : conversation) (q : query)
    (db db' : gmap oid conversation) : Prop :=
  db' !! o = Some {| c_user := c_user c; c_date := c_date c; c_name := c_name c;
                     c_queries := c_queries c ++ [q] |}
  ∧ dom db' = dom db
  ∧ ∀ o', o' ≠ o → db' !! o' = db !! o'.

(** More fixtures. *)
Module Fixtures.

Definition stored : conversation :=
  {| c_user := "local"; c_date := 7; c_name := "Old talk";
     c_queries := [{| q_prompt := "hi"; q_response := "hello"; q_sources := [] |}] |}.

(** A collection that holds one conversation, under [Demo.absent_id]. *)
Definition one_conversation : world :=
  World [] {[ 255%N := stored ]} [] [].

Definition vectors : list (gmap string string) :=
  [ {[ "name" := "notes"; "location" := "indexes/local/notes" ]};
    {[ "name" := "other"; "location" := "indexes/local/other" ]} ].

Definition big_turn : turn :=
  {[ "prompt" := "0123456789"; "response" := "0123456789" ]}.

Definition tight (llm_name : string) : Settings := {|
  LLM_NAME := llm_name;
  EMBEDDINGS_NAME := "openai_text-embedding-ada-002";
  SELF_HOSTED_MODEL := false;
  OPENAI_API_BASE := None;
  OPENAI_API_VERSION := None;
  AZURE_DEPLOYMENT_NAME := None;
  TOKENS_MAX_HISTORY := 0;
  chat_combine_template := "No placeholder here";
|}.

Definition self_hosted : Settings := {|
  LLM_NAME := "Arc53/docsgpt-7b-falcon";
  EMBEDDINGS_NAME := "openai_text-embedding-ada-002";
  SELF_HOSTED_MODEL := true;
  OPENAI_API_BASE := None;
  OPENAI_API_VERSION := None;
  AZURE_DEPLOYMENT_NAME := None;
  TOKENS_MAX_HISTORY := 150;
  chat_combine_template := "Use this: {summaries}";
|}.

(** A backend whose completion endpoint is down. *)
Definition broken : Collaborators := {|
  load_local := fun _ => inr Demo.docsearch;
  get_num_tokens := fun _ s => Z.of_nat (String.length s);
  parse_template := fun s => Demo.parse_format s false;
  ChatCompletion_create_stream := fun _ _ => inl (CollaboratorError "timeout");
  ChatCompletion_create := fun _ _ => inl (CollaboratorError "timeout");
  run_chain := fun _ _ _ _ _ => inl (CollaboratorError "timeout");
  predict_messages := fun _ _ => inl (CollaboratorError "timeout");
  utcnow := 0;
|}.

End Fixtures.

(** * Properties *)

(** ** Sanity checks of the string methods and the identifier codec *)

Example split_slash : PyStr.split "local/default" "/" = ["local"; "default"].
Proof. reflexivity. Qed.
Example split_none : PyStr.split "default" "/" = ["default"].
Proof. reflexivity. Qed.
Example split_empty_piece : PyStr.split "a//b/" "/" = ["a"; ""; "b"; ""].
Proof. reflexivity. Qed.
Example split_multi :
  PyStr.split "x SOURCES: a SOURCES: b" "SOURCES:" = ["x "; " a "; " b"].
Proof. reflexivity. Qed.
Example replace_all :
  PyStr.replace "a{summaries}b{summaries}" "{summaries}" "DOC" = "aDOCbDOC".
Proof. reflexivity. Qed.
Example join_nl : PyStr.join "/" ["a"; "b"; "c"] = "a/b/c".
Proof. reflexivity. Qed.
Example path_join_empty : PyStr.path_join "application" "" = "application/".
Proof. reflexivity. Qed.
Example oid_parse : Bson.ObjectId "0000000000000000000000ff" = inr 255%N.
Proof. reflexivity. Qed.
Example oid_print : Bson.str 255%N = "0000000000000000000000ff".
Proof. reflexivity. Qed.
Example oid_invalid : Bson.ObjectId "jeff" = inl (InvalidId "jeff").
Proof. reflexivity. Qed.
Example oid_not_hex :
  Bson.ObjectId "00000000000000000000000g" = inl (InvalidId "00000000000000000000000g").
Proof. reflexivity. Qed.
Example oid_spaced :
  Bson.ObjectId spaced_id = inr (16 ^ 24 + 256 ^ 11 + 255)%N.
Proof. vm_compute. reflexivity. Qed.
Example oid_split_byte :
  Bson.ObjectId "00000000000000000000f f0" = inl (InvalidId "00000000000000000000f f0").
Proof. reflexivity. Qed.

(** ** Facts about the string methods *)

Section StringFacts.

Lemma append_cons (c : ascii) (s t : string) :
  String c s +:+ t = String c (s +:+ t).
Proof. reflexivity. Qed.

Lemma append_nil_l (t : string) : "" +:+ t = t.
Proof. reflexivity. Qed.

Lemma append_nil_r (s : string) : s +:+ "" = s.
Proof. induction s as [|c s IH]; [done | by rewrite append_cons, IH]. Qed.

Lemma append_assoc (a b c : string) : (a +:+ b) +:+ c = a +:+ (b +:+ c).
Proof. induction a as [|x a IH]; [done | by rewrite !append_cons, IH]. Qed.

Lemma prefix_append (p a t : string) :
  String.prefix p a = true → String.prefix p (a +:+ t) = true.
Proof.
  revert a. induction p as [|x p IH]; intros [|y a]; try done.
  - by destruct t.
  - rewrite append_cons. simpl. destruct (ascii_dec x y); [apply IH | done].
Qed.

Lemma prefix_split (p s : string) :
  String.prefix p s = true → ∃ rest, s = p +:+ rest.
Proof.
  revert s. induction p as [|x p IH]; intros s H.
  - by exists s.
  - destruct s as [|y s]; simpl in H; [done|].
    destruct (ascii_dec x y) as [->|]; [|done].
    destruct (IH _ H) as [rest ->]. by exists rest.
Qed.

Lemma prefix_of_empty (p : string) : p ≠ "" → String.prefix p "" = false.
Proof. by destruct p. Qed.

Lemma before_first_nil (sep : string) : before_first sep "" = "".
Proof. by destruct sep. Qed.

Lemma before_first_prefix (sep s : string) :
  ∃ rest, s = before_first sep s +:+ rest.
Proof.
  induction s as [|c s [rest IH]].
  - exists "". by rewrite before_first_nil.
  - cbn [before_first]. destruct (String.prefix sep (String c s)).
    + by exists (String c s).
    + exists rest. by rewrite append_cons, <- IH.
Qed.

(** The text before the first occurrence holds no occurrence. *)
Lemma before_first_clean (sep s : string) :
  sep ≠ "" → PyStr.contains sep (before_first sep s) = false.
Proof.
  intros Hsep. induction s as [|c s IH].
  - rewrite before_first_nil. by destruct sep.
  - cbn [before_first].
    destruct (String.prefix sep (String c s)) eqn:Hp.
    + by destruct sep.
    + cbn [PyStr.contains]. rewrite IH, orb_false_r.
      destruct (String.prefix sep (String c (before_first sep s))) eqn:Hq; [|done].
      destruct (before_first_prefix sep s) as [rest Hrest].
      apply (prefix_append _ _ rest) in Hq. rewrite append_cons in Hq.
      rewrite <- Hrest in Hq. congruence.
Qed.

Lemma before_first_absent (sep s : string) :
  PyStr.contains sep s = false → before_first sep s = s.
Proof.
  induction s as [|c s IH].
  - intros _. apply before_first_nil.
  - cbn [PyStr.contains before_first].
    intros [Hp Hc]%orb_false_iff. rewrite Hp. by rewrite IH.
Qed.

Lemma before_first_present (sep s : string) :
  PyStr.contains sep s = true →
  ∃ rest, s = before_first sep s +:+ sep +:+ rest.
Proof.
  induction s as [|c s IH]; cbn [PyStr.contains before_first].
  - rewrite orb_false_r. intros Hp. rewrite Hp.
    destruct (prefix_split _ _ Hp) as [rest Hrest]. by exists rest.
  - destruct (String.prefix sep (String c s)) eqn:Hp.
    + intros _. destruct (prefix_split _ _ Hp) as [rest Hrest]. by exists rest.
    + simpl. intros Hc. destruct (IH Hc) as [rest Hrest].
      exists rest. by rewrite append_cons, <- Hrest.
Qed.

(** The first piece of a split is the piece read so far followed by the
    text before the first separator. *)
Lemma split_aux_head (sep s cur : string) :
  ∃ pieces, PyStr.split_aux sep s 0 cur = (cur +:+ before_first sep s) :: pieces.
Proof.
  revert cur. induction s as [|c s IH]; intros cur.
  - exists []. by rewrite before_first_nil, append_nil_r.
  - cbn [PyStr.split_aux before_first].
    destruct (String.prefix sep (String c s)).
    + eexists. by rewrite append_nil_r.
    + destruct (IH (cur +:+ String c "")) as [pieces ->].
      exists pieces. by rewrite append_assoc.
Qed.

Lemma split_head (s sep : string) :
  PyStr.index (PyStr.split s sep) 0 = inr (before_first sep s).
Proof.
  unfold PyStr.split. by destruct (split_aux_head sep s "") as [pieces ->].
Qed.

Lemma split_aux_nonempty (sep s : string) (skip : nat) (cur : string) :
  PyStr.split_aux sep s skip cur ≠ [].
Proof.
  revert skip cur.
  induction s as [|c s IH]; intros skip cur; cbn [PyStr.split_aux]; [done|].
  destruct skip; [|apply IH]. destruct (String.prefix sep (String c s)); [done|apply IH].
Qed.

(** A string that holds the separator splits into at least two pieces. *)
Lemma split_aux_two (sep s cur : string) :
  sep ≠ "" → PyStr.contains sep s = true →
  ∃ a b rest, PyStr.split_aux sep s 0 cur = a :: b :: rest.
Proof.
  intros Hsep. revert cur.
  induction s as [|c s IH]; intros cur; cbn [PyStr.contains PyStr.split_aux].
  - rewrite orb_false_r. intros Hp. rewrite prefix_of_empty in Hp; done.
  - destruct (String.prefix sep (String c s)) eqn:Hp.
    + intros _.
      destruct (PyStr.split_aux sep s (String.length sep - 1) "") as [|b rest] eqn:E.
      * by apply split_aux_nonempty in E.
      * by exists cur, b, rest.
    + simpl. intros Hc. apply IH, Hc.
Qed.

End StringFacts.

(** ** The vector-store resolver *)

Lemma selector_lookup (sel : string) : selector sel !! "active_docs" = Some sel.
Proof. apply lookup_singleton_eq. Qed.

Example resolve_default :
  get_vectorstore (selector "default") = inr "application/"
  ∧ get_vectorstore (selector "local/default") = inr "application/"
  ∧ get_vectorstore ∅ = inr "application/".
Proof. repeat split; vm_compute; reflexivity. Qed.

Example resolve_remote :
  get_vectorstore (selector "python/pandas") = inr "application/vectors/python/pandas".
Proof. vm_compute. reflexivity. Qed.

Example resolve_local :
  get_vectorstore (selector "local/notes") = inr "application/indexes/local/notes".
Proof. vm_compute. reflexivity. Qed.

Example resolve_unknown_word :
  get_vectorstore (selector "nosuch") = inr "application/vectors/nosuch".
Proof. vm_compute. reflexivity. Qed.

Example resolve_bare_local : get_vectorstore (selector "local") = inl IndexError.
Proof. vm_compute. reflexivity. Qed.

(** C8, as stated, fails: the selector [local] has no name part, and the
    resolver raises [IndexError] on it instead of giving the default
    path. *)
Lemma resolver_never_raises_fails : ¬ resolver_never_raises.
Proof.
  intros (_ & _ & H). specialize (H "local" eq_refl).
  vm_compute in H. discriminate H.
Qed.

(** C8 (amended): the selectors [local/default], [default] and the absent
    selector all resolve to the application root, and every selector of
    the documented shape resolves, without raising, to the path the
    resolution rules give. *)
Theorem get_vectorstore_follows_rules (sel path : string) :
  resolve_rules sel = Some path →
  get_vectorstore (selector "local/default") = inr default_path
  ∧ get_vectorstore (selector "default") = inr default_path
  ∧ get_vectorstore ∅ = inr default_path
  ∧ get_vectorstore (selector sel) = inr path.
Proof.
  intros Hrules.
  split; [by vm_compute|]. split; [by vm_compute|]. split; [by vm_compute|].
  unfold resolve_rules in Hrules. unfold get_vectorstore.
  rewrite selector_lookup. case_bool_decide as Hdef.
  - subst sel. injection Hrules as <-. by vm_compute.
  - destruct (PyStr.split sel "/") as [|scope [|name rest]] eqn:Hsplit; try done.
    cbn [PyStr.index lookup list_lookup mbind exn_bind].
    repeat case_bool_decide; injection Hrules as <-; reflexivity.
Qed.

Lemma get_vectorstore_follows_rules_witness :
  resolve_rules "local/notes" = Some "application/indexes/local/notes"
  ∧ get_vectorstore (selector "local/notes") = inr "application/indexes/local/notes".
Proof.
  split; [reflexivity|].
  apply (get_vectorstore_follows_rules "local/notes"). reflexivity.
Defined.

(** ** The scan relation and its function *)

Section ScanFacts.

Context (cost : string → Z) (max_tokens : Z).

Lemma keep_scan (total : Z) (turns : list turn) :
  scan cost max_tokens total turns (keep cost max_tokens total turns).
Proof.
  revert total. induction turns as [|t turns IH]; intros total; cbn [keep].
  - constructor.
  - destruct (turn_cost cost t) as [c|] eqn:Hc.
    + case_bool_decide as Hlt.
      * by eapply scan_keep.
      * by eapply scan_over.
    + by apply scan_skip.
Qed.

Lemma scan_keep_unique (total : Z) (turns kept : list turn) :
  scan cost max_tokens total turns kept → kept = keep cost max_tokens total turns.
Proof.
  induction 1 as [total | total t older kept c Hc Hlt _ IH
                 | total t older kept c Hc Hge _ IH | total t older kept Hc _ IH];
    cbn [keep]; [done | rewrite Hc .. ].
  - rewrite bool_decide_eq_true_2 by done. by rewrite IH.
  - by rewrite bool_decide_eq_false_2.
  - done.
Qed.

(** The kept turns are a sub-sequence of the scanned ones. *)
Lemma keep_sublist (total : Z) (turns : list turn) :
  sublist (keep cost max_tokens total turns) turns.
Proof.
  revert total. induction turns as [|t turns IH]; intros total; cbn [keep]; [done|].
  destruct (turn_cost cost t); [case_bool_decide|];
    by (apply sublist_skip || apply sublist_cons).
Qed.

End ScanFacts.

(** ** History budgeting *)

Section Budget.

Context (cfg : Settings) (C : Collaborators) (l : llm).

Lemma budget_step_incomplete (st : Z * list message) (t : turn) :
  t !! "prompt" = None ∨ t !! "response" = None →
  budget_step cfg C l st t = st.
Proof.
  destruct st as [total msgs]. unfold budget_step.
  intros [-> | ->]; [done|]. by destruct (t !! "prompt").
Qed.

Lemma budget_step_complete (total : Z) (msgs : list message) (t : turn) (p r : string) :
  t !! "prompt" = Some p → t !! "response" = Some r →
  budget_step cfg C l (total, msgs) t =
    let c := get_num_tokens C l p + get_num_tokens C l r in
    if bool_decide (total + c < TOKENS_MAX_HISTORY cfg)
    then (total + c, msgs ++ [Msg user p; Msg system r])
    else (total, msgs).
Proof. unfold budget_step. by intros -> ->. Qed.

(** The loop of the streaming handler computes the scan: the kept turns,
    in the order they are walked, each as its pair of messages. *)
Lemma budget_loop_keep (turns : list turn) (total : Z) (msgs : list message) :
  (foldl (budget_step cfg C l) (total, msgs) turns).2
  = msgs ++ flat_map (turn_messages (Msg system))
              (keep (get_num_tokens C l) (TOKENS_MAX_HISTORY cfg) total turns).
Proof.
  revert total msgs. induction turns as [|t turns IH]; intros total msgs.
  - simpl. by rewrite app_nil_r.
  - cbn [foldl keep]. unfold turn_cost.
    destruct (t !! "prompt") as [p|] eqn:Hp; [destruct (t !! "response") as [r|] eqn:Hr|].
    + rewrite (budget_step_complete _ _ _ _ _ Hp Hr). cbn zeta.
      case_bool_decide as Hlt; rewrite IH; [|done].
      cbn [flat_map]. unfold turn_messages at 2. rewrite Hp, Hr.
      by rewrite <- app_assoc.
    + rewrite budget_step_incomplete by auto. apply IH.
    + rewrite budget_step_incomplete by auto. apply IH.
Qed.

Lemma budget_history_run (msgs : list message) (w : world) :
  budget_history cfg C l msgs w
  = (inr (foldl (budget_step cfg C l) (0, msgs) (reverse (chat_history w))).2,
     reversed w).
Proof. reflexivity. Qed.

(** *** The synchronous handler *)

Lemma turn_texts_complete (t : turn) (p r : string) :
  t !! "prompt" = Some p → t !! "response" = Some r → turn_texts t = [p; r].
Proof. unfold turn_texts. by intros -> ->. Qed.

Lemma turn_messages_complete (mk : string → message) (t : turn) (p r : string) :
  t !! "prompt" = Some p → t !! "response" = Some r →
  turn_messages mk t = [Msg user p; mk r].
Proof. unfold turn_messages. by intros -> ->. Qed.

Lemma charged_complete (cost : string → Z) (t : turn) (p r : string) :
  t !! "prompt" = Some p → t !! "response" = Some r →
  charged cost t = cost p + cost r.
Proof. unfold charged, turn_cost. by intros -> ->. Qed.

Lemma exn_bind_run {A B} (m : exn + A) (f : A → exn + B) :
  m ≫= f = match m with
           | inl e => inl e
           | inr a => f a
           end.
Proof. reflexivity. Qed.

Lemma from_template_run (r : role) (template : string) :
  from_template C r template = (parse_template C template;; inr (Msg r template)).
Proof. reflexivity. Qed.

Lemma parse_all_app (a b : list string) :
  parse_all C (a ++ b) = (parse_all C a;; parse_all C b).
Proof.
  induction a as [|s a IH]; [done|].
  cbn [app parse_all]. rewrite !exn_bind_run. by destruct (parse_template C s).
Qed.

Lemma answer_budget_step_incomplete (st : Z * list message) (t : turn) :
  t !! "prompt" = None ∨ t !! "response" = None →
  answer_budget_step cfg C l st t = inr st.
Proof.
  destruct st as [total msgs]. unfold answer_budget_step.
  intros [-> | ->]; [done|]. by destruct (t !! "prompt").
Qed.

Lemma answer_budget_step_complete (total : Z) (msgs : list message) (t : turn)
    (p r : string) :
  t !! "prompt" = Some p → t !! "response" = Some r →
  answer_budget_step cfg C l (total, msgs) t =
    let c := get_num_tokens C l p + get_num_tokens C l r in
    if bool_decide (total + c < TOKENS_MAX_HISTORY cfg)
    then parse_all C [p; r];;
         inr (total + c, msgs ++ [Msg user p; Msg assistant r])
    else inr (total, msgs).
Proof.
  unfold answer_budget_step. intros -> ->. cbn zeta.
  case_bool_decide; [|done].
  rewrite !from_template_run. cbn [parse_all]. rewrite !exn_bind_run.
  destruct (parse_template C p) as [e|[]]; [done|].
  rewrite !exn_bind_run. by destruct (parse_template C r) as [e|[]].
Qed.

(** The loop of the synchronous handler computes the same scan; the texts
    of the kept turns are parsed on the way, and the first one the parser
    rejects ends the loop with the parser's error. *)
Lemma answer_budget_loop_keep (turns : list turn) (total : Z) (msgs : list message) :
  let kept := keep (get_num_tokens C l) (TOKENS_MAX_HISTORY cfg) total turns in
  answer_budget_loop cfg C l (total, msgs) turns
  = (parse_all C (flat_map turn_texts kept);;
     inr (total + total_cost (get_num_tokens C l) kept,
          msgs ++ flat_map (turn_messages (Msg assistant)) kept)).
Proof.
  cbn zeta. revert total msgs. induction turns as [|t turns IH]; intros total msgs.
  - cbn. by rewrite Z.add_0_r, app_nil_r.
  - cbn [answer_budget_loop keep]. unfold turn_cost.
    destruct (t !! "prompt") as [p|] eqn:Hp; [destruct (t !! "response") as [r|] eqn:Hr|].
    + rewrite (answer_budget_step_complete _ _ _ _ _ Hp Hr). cbn zeta.
      case_bool_decide as Hlt.
      * cbn [flat_map].
        rewrite (turn_texts_complete _ _ _ Hp Hr), (turn_messages_complete _ _ _ _ Hp Hr).
        rewrite parse_all_app, !exn_bind_run.
        destruct (parse_all C [p; r]) as [e|[]]; [done|].
        rewrite IH, exn_bind_run.
        destruct (parse_all C _) as [e|[]]; [done|].
        cbn [total_cost foldr]. rewrite (charged_complete _ _ _ _ Hp Hr).
        rewrite <- app_assoc. do 2 f_equal. symmetry. apply Z.add_assoc.
      * rewrite exn_bind_run. apply IH.
    + rewrite answer_budget_step_incomplete by auto. rewrite exn_bind_run. apply IH.
    + rewrite answer_budget_step_incomplete by auto. rewrite exn_bind_run. apply IH.
Qed.

End Budget.

Lemma world_eta (w : world) :
  World (chat_history w) (conversations_collection w) (emitted w) (calls w) = w.
Proof. by destruct w. Qed.

Lemma reversed_empty (w : world) : chat_history w = [] → reversed w = w.
Proof. destruct w as [h db em cs]. cbn. by intros ->. Qed.

Lemma stream_messages_long cfg C l msgs question w :
  (1 < length (chat_history w))%nat →
  stream_messages cfg C l msgs question w
  = (inr ((foldl (budget_step cfg C l) (0, msgs)
             (reverse (chat_history w))).2 ++ [Msg user question]),
     reversed w).
Proof.
  intros Hlen. unfold stream_messages, read_history, mbind, M_bind.
  rewrite bool_decide_eq_true_2 by done. by rewrite budget_history_run.
Qed.

Lemma stream_messages_short cfg C l msgs question w :
  (length (chat_history w) ≤ 1)%nat →
  stream_messages cfg C l msgs question w = (inr (msgs ++ [Msg user question]), w).
Proof.
  intros Hlen. unfold stream_messages, read_history, mbind, M_bind.
  rewrite bool_decide_eq_false_2 by lia. reflexivity.
Qed.

(** A run of [answer_messages]: a system template the parser rejects ends
    it before the history is touched; otherwise the list is reversed in
    place and the prompt assembled from the kept turns. *)
Lemma answer_messages_run cfg C l w :
  answer_messages cfg C l w
  = match parse_template C (chat_combine_template cfg) with
    | inl e => (inl e, w)
    | inr _ =>
        (assembled cfg C
           (keep (get_num_tokens C l) (TOKENS_MAX_HISTORY cfg) 0
              (reverse (chat_history w))),
         reversed w)
    end.
Proof.
  unfold answer_messages, from_template, lift, read_history, mbind at 1, M_bind at 1.
  rewrite exn_bind_run.
  destruct (parse_template C (chat_combine_template cfg)) as [e|[]]; [done|].
  unfold mbind, M_bind. case_bool_decide as Hne.
  - unfold answer_budget_history, reverse_history, read_history, lift, mbind, M_bind.
    cbn [chat_history]. rewrite answer_budget_loop_keep. unfold assembled.
    rewrite !exn_bind_run. destruct (parse_all C _) as [e|[]]; [done|].
    cbn [snd mret M_ret]. by rewrite <- app_assoc.
  - assert (chat_history w = []) as He by (by destruct (chat_history w)).
    rewrite reversed_empty by done. rewrite He. reflexivity.
Qed.

(** *** Which turns the loop skips *)

Example prompt_only_is_skipped :
  (foldl (budget_step (Demo.settings "openai_chat") (Demo.backend [] "")
            (ChatOpenAI None)) (0, []) [Demo.prompt_only]).2 = [].
Proof. reflexivity. Qed.

(** C9, as stated, fails: a turn that has a prompt and no response does
    not lack both fields, yet the loop skips it. *)
Lemma skipped_iff_lacks_both_fails : ¬ skipped_iff_lacks_both.
Proof.
  intros H.
  destruct (H (Demo.settings "openai_chat") (Demo.backend [] "") (ChatOpenAI None)
              Demo.prompt_only) as [[Hskip _] _].
  destruct Hskip as [Hprompt _].
  - intros st. apply budget_step_incomplete. by right.
  - vm_compute in Hprompt. discriminate Hprompt.
Qed.

(** C9 (amended): in both handlers the loop skips a turn, leaving the
    running total and the prompt as they were, exactly when the turn lacks
    the prompt field or the response field.  A turn that has both is
    budgeted: whenever the running total plus its cost is strictly below
    the ceiling, the streaming handler adds it with its cost; the
    synchronous handler parses its two texts as prompt templates, adds the
    turn with its cost when the parser accepts both, and raises the
    parser's error otherwise. *)
Theorem skipped_iff_lacks_one cfg C l (t : turn) :
  (skips cfg C l t ↔ (t !! "prompt" = None ∨ t !! "response" = None))
  ∧ (answer_skips cfg C l t ↔ (t !! "prompt" = None ∨ t !! "response" = None))
  ∧ ∀ p r total msgs,
      t !! "prompt" = Some p → t !! "response" = Some r →
      total + (get_num_tokens C l p + get_num_tokens C l r) < TOKENS_MAX_HISTORY cfg →
      budget_step cfg C l (total, msgs) t
      = (total + (get_num_tokens C l p + get_num_tokens C l r),
         msgs ++ [Msg user p; Msg system r])
      ∧ answer_budget_step cfg C l (total, msgs) t
        = (parse_all C [p; r];;
           inr (total + (get_num_tokens C l p + get_num_tokens C l r),
                msgs ++ [Msg user p; Msg assistant r])).
Proof.
  split; [|split].
  - split.
    + intros Hskip.
      destruct (t !! "prompt") as [p|] eqn:Hp; [|by left].
      destruct (t !! "response") as [r|] eqn:Hr; [|by right].
      exfalso.
      pose (c := get_num_tokens C l p + get_num_tokens C l r).
      specialize (Hskip (TOKENS_MAX_HISTORY cfg - c - 1, [])).
      rewrite (budget_step_complete _ _ _ _ _ _ _ _ Hp Hr) in Hskip.
      cbn zeta in Hskip. fold c in Hskip.
      rewrite bool_decide_eq_true_2 in Hskip by lia.
      by injection Hskip.
    + intros Hlack st. by apply budget_step_incomplete.
  - split.
    + intros Hskip.
      destruct (t !! "prompt") as [p|] eqn:Hp; [|by left].
      destruct (t !! "response") as [r|] eqn:Hr; [|by right].
      exfalso.
      pose (c := get_num_tokens C l p + get_num_tokens C l r).
      specialize (Hskip (TOKENS_MAX_HISTORY cfg - c - 1, [])).
      rewrite (answer_budget_step_complete _ _ _ _ _ _ _ _ Hp Hr) in Hskip.
      cbn zeta in Hskip. fold c in Hskip.
      rewrite bool_decide_eq_true_2, exn_bind_run in Hskip by lia.
      destruct (parse_all C [p; r]); [done | by injection Hskip].
    + intros Hlack st. by apply answer_budget_step_incomplete.
  - intros p r total msgs Hp Hr Hlt. split.
    + rewrite (budget_step_complete _ _ _ _ _ _ _ _ Hp Hr). cbn zeta.
      by rewrite bool_decide_eq_true_2.
    + rewrite (answer_budget_step_complete _ _ _ _ _ _ _ _ Hp Hr). cbn zeta.
      by rewrite bool_decide_eq_true_2.
Qed.

Lemma skipped_iff_lacks_one_witness :
  skips (Demo.settings "openai_chat") (Demo.backend [] "") (ChatOpenAI None)
    Demo.prompt_only
  ∧ answer_skips (Demo.settings "openai_chat") (Demo.backend [] "") (ChatOpenAI None)
      Demo.prompt_only
  ∧ budget_step (Demo.settings "openai_chat") (Demo.backend [] "") (ChatOpenAI None)
      (0, []) Demo.turn1
    = (2, [Msg user "a"; Msg system "b"])
  ∧ answer_budget_step (Demo.settings "openai_chat") (Demo.backend [] "")
      (ChatOpenAI None) (0, []) Demo.turn1
    = inr (2, [Msg user "a"; Msg assistant "b"])
  ∧ answer_budget_step (Demo.settings "openai_chat") (Demo.backend [] "")
      (ChatOpenAI None) (0, []) Demo.brace_turn
    = inl (ValueError "Single '{' encountered in format string").
Proof.
  split; [|split; [|split; [|split]]].
  - apply (skipped_iff_lacks_one (Demo.settings "openai_chat") (Demo.backend [] "")
             (ChatOpenAI None) Demo.prompt_only). by right.
  - apply (skipped_iff_lacks_one (Demo.settings "openai_chat") (Demo.backend [] "")
             (ChatOpenAI None) Demo.prompt_only). by right.
  - apply (proj2 (proj2 (skipped_iff_lacks_one (Demo.settings "openai_chat")
                           (Demo.backend [] "") (ChatOpenAI None) Demo.turn1))
             "a" "b" 0 []); [reflexivity | reflexivity | vm_compute; reflexivity].
  - apply (proj2 (proj2 (skipped_iff_lacks_one (Demo.settings "openai_chat")
                           (Demo.backend [] "") (ChatOpenAI None) Demo.turn1))
             "a" "b" 0 []); [reflexivity | reflexivity | vm_compute; reflexivity].
  - apply (proj2 (proj2 (skipped_iff_lacks_one (Demo.settings "openai_chat")
                           (Demo.backend [] "") (ChatOpenAI None) Demo.brace_turn))
             "use {" "ok" 0 []); [reflexivity | reflexivity | vm_compute; reflexivity].
Defined.

(** *** The order of the kept turns *)

Example budget_two_turns :
  (stream_messages (Demo.settings "openai_chat") (Demo.backend [] "") (ChatOpenAI None)
     [] "q" (Demo.start [Demo.turn1; Demo.turn2])).1
  = inr [Msg user "c"; Msg system "d"; Msg user "a"; Msg system "b"; Msg user "q"].
Proof. vm_compute. reflexivity. Qed.

(** C1, as stated, fails: with two turns that both fit, the prompt carries
    the newer turn before the older one. *)
Lemma kept_turns_oldest_first_fails : ¬ kept_turns_oldest_first.
Proof.
  intros H.
  destruct (H (Demo.settings "openai_chat") (Demo.backend [] "") (ChatOpenAI None)
              [] "q" (Demo.start [Demo.turn1; Demo.turn2])) as (kept & Hscan & Heq).
  - simpl. lia.
  - apply scan_keep_unique in Hscan. subst kept.
    vm_compute in Heq. discriminate Heq.
Qed.

(** C1 (amended): for a history of more than one turn, both handlers walk
    the turns most recent first with a running total, keep a turn only if
    the running total plus its cost is strictly below the ceiling, go on
    with the older turns after one that is not kept, and place the kept
    turns in the prompt in the order they were walked: most recent of the
    kept first.  The synchronous handler parses the system template and
    the texts of the kept turns as prompt templates on the way, and raises
    the parser's error at the first text it rejects. *)
Theorem budget_scans_recent_first cfg C l messages_combine question w :
  (1 < length (chat_history w))%nat →
  ∃ kept,
    scan (get_num_tokens C l) (TOKENS_MAX_HISTORY cfg) 0 (reverse (chat_history w)) kept
    ∧ sublist kept (reverse (chat_history w))
    ∧ stream_messages cfg C l messages_combine question w
      = (inr (messages_combine
              ++ flat_map (turn_messages (Msg system)) kept
              ++ [Msg user question]), reversed w)
    ∧ answer_messages cfg C l w
      = match parse_template C (chat_combine_template cfg) with
        | inl e => (inl e, w)
        | inr _ => (assembled cfg C kept, reversed w)
        end.
Proof.
  intros Hlen.
  exists (keep (get_num_tokens C l) (TOKENS_MAX_HISTORY cfg) 0 (reverse (chat_history w))).
  split; [apply keep_scan|]. split; [apply keep_sublist|]. split.
  - rewrite stream_messages_long by done.
    by rewrite budget_loop_keep, <- app_assoc.
  - apply answer_messages_run.
Qed.

Lemma budget_scans_recent_first_witness :
  (1 < length (chat_history (Demo.start [Demo.turn1; Demo.turn2])))%nat
  ∧ ∃ kept,
      scan (get_num_tokens (Demo.backend [] "") (ChatOpenAI None))
        (TOKENS_MAX_HISTORY (Demo.settings "openai_chat")) 0
        (reverse (chat_history (Demo.start [Demo.turn1; Demo.turn2]))) kept
      ∧ sublist kept (reverse (chat_history (Demo.start [Demo.turn1; Demo.turn2])))
      ∧ stream_messages (Demo.settings "openai_chat") (Demo.backend [] "")
          (ChatOpenAI None) [] "q" (Demo.start [Demo.turn1; Demo.turn2])
        = (inr ([] ++ flat_map (turn_messages (Msg system)) kept ++ [Msg user "q"]),
           reversed (Demo.start [Demo.turn1; Demo.turn2]))
      ∧ answer_messages (Demo.settings "openai_chat") (Demo.backend [] "")
          (ChatOpenAI None) (Demo.start [Demo.turn1; Demo.turn2])
        = (assembled (Demo.settings "openai_chat") (Demo.backend [] "") kept,
           reversed (Demo.start [Demo.turn1; Demo.turn2])).
Proof.
  split; [simpl; lia|].
  apply (budget_scans_recent_first (Demo.settings "openai_chat") (Demo.backend [] "")
           (ChatOpenAI None) [] "q" (Demo.start [Demo.turn1; Demo.turn2])).
  simpl. lia.
Defined.

Example answer_two_turns :
  (answer_messages (Demo.settings "openai_chat") (Demo.backend [] "") (ChatOpenAI None)
     (Demo.start [Demo.turn1; Demo.turn2])).1
  = inr [Msg system "Use this: {summaries}"; Msg user "c"; Msg assistant "d";
         Msg user "a"; Msg assistant "b"; Msg user "{question}"].
Proof. vm_compute. reflexivity. Qed.

(** A history text with a lone brace makes the synchronous handler fail:
    the request is answered with the parser's error. *)
Example answer_lone_brace :
  api_answer (Demo.settings "openai_chat") (Demo.backend [] "fine") "q?" None ∅
    (Demo.start [Demo.brace_turn])
  = (bad_request 500 (ValueError "Single '{' encountered in format string"),
     with_calls (Demo.start [Demo.brace_turn]) [CallLoadLocal "application/"]).
Proof. vm_compute. reflexivity. Qed.

(** *** Histories of at most one turn *)

Example single_turn_dropped_by_stream :
  (stream_messages (Demo.settings "openai_chat") (Demo.backend [] "") (ChatOpenAI None)
     [] "q" (Demo.start [Demo.turn1])).1 = inr [Msg user "q"].
Proof. vm_compute. reflexivity. Qed.

(** C7, as stated, fails: the streaming handler leaves a one-turn history
    out of the prompt. *)
Lemma short_history_untouched_fails : ¬ short_history_untouched.
Proof.
  intros H.
  destruct (H (Demo.settings "openai_chat") (Demo.backend [] "") (ChatOpenAI None)
              [] "q" (Demo.start [Demo.turn1])) as [Hstream _].
  - simpl. lia.
  - vm_compute in Hstream. discriminate Hstream.
Qed.

Lemma reversed_short (w : world) : (length (chat_history w) ≤ 1)%nat → reversed w = w.
Proof.
  destruct w as [[|t [|t' h]] db em cs]; cbn; [done | done | lia].
Qed.

(** C7 (amended): for a history of at most one turn the caller's list is
    left as it was by both handlers.  The streaming handler evaluates no
    budget and puts no history turn in the prompt.  The synchronous handler
    takes the single turn exactly when the turn has both fields and its
    cost is strictly below the ceiling; once the system template and the
    two texts of a turn it takes are parsed as prompt templates, the turn
    stands in the prompt, and a text the parser rejects makes the handler
    raise the parser's error instead. *)
Theorem short_history_budget cfg C l messages_combine question w :
  (length (chat_history w) ≤ 1)%nat →
  stream_messages cfg C l messages_combine question w
  = (inr (messages_combine ++ [Msg user question]), w)
  ∧ answer_messages cfg C l w
    = (parse_template C (chat_combine_template cfg);;
       assembled cfg C (List.filter (fits cfg C l) (chat_history w)), w).
Proof.
  intros Hlen. split; [by apply stream_messages_short|].
  rewrite answer_messages_run, exn_bind_run.
  destruct (parse_template C (chat_combine_template cfg)) as [e|[]]; [done|].
  rewrite reversed_short by done. do 2 f_equal.
  destruct (chat_history w) as [|t [|t' rest]]; [done | | simpl in Hlen; lia].
  change (reverse [t]) with [t]. cbn [keep List.filter]. unfold fits.
  destruct (turn_cost (get_num_tokens C l) t) as [c|]; [|done].
  rewrite Z.add_0_l. by case_bool_decide.
Qed.

Lemma short_history_budget_witness :
  (length (chat_history (Demo.start [Demo.turn1])) ≤ 1)%nat
  ∧ stream_messages (Demo.settings "openai_chat") (Demo.backend [] "")
      (ChatOpenAI None) [] "q" (Demo.start [Demo.turn1])
    = (inr [Msg user "q"], Demo.start [Demo.turn1])
  ∧ answer_messages (Demo.settings "openai_chat") (Demo.backend [] "")
      (ChatOpenAI None) (Demo.start [Demo.turn1])
    = (inr [Msg system "Use this: {summaries}"; Msg user "a"; Msg assistant "b";
            Msg user "{question}"], Demo.start [Demo.turn1]).
Proof.
  split; [simpl; lia|].
  apply (short_history_budget (Demo.settings "openai_chat") (Demo.backend [] "")
           (ChatOpenAI None) [] "q" (Demo.start [Demo.turn1])).
  simpl. lia.
Defined.

Example single_brace_turn :
  answer_messages (Demo.settings "openai_chat") (Demo.backend [] "") (ChatOpenAI None)
    (Demo.start [Demo.brace_turn])
  = (inl (ValueError "Single '{' encountered in format string"),
     Demo.start [Demo.brace_turn]).
Proof. vm_compute. reflexivity. Qed.

(** ** Running the handlers *)

Section Runs.

Context (cfg : Settings) (C : Collaborators).

Lemma bind_run {A B} (m : M A) (f : A → M B) (w : world) :
  (m ≫= f) w = match m w with
               | (inl e, w') => (inl e, w')
               | (inr x, w') => f x w'
               end.
Proof. reflexivity. Qed.

Lemma bind_ok {A B} (m : M A) (f : A → M B) (w w' : world) (b : B) :
  (m ≫= f) w = (inr b, w') →
  ∃ a w1, m w = (inr a, w1) ∧ f a w1 = (inr b, w').
Proof.
  rewrite bind_run. destruct (m w) as [[e|a] w1]; [done|]. by exists a, w1.
Qed.

Lemma lift_ok {A} (r : exn + A) (w w' : world) (a : A) :
  lift r w = (inr a, w') → r = inr a ∧ w' = w.
Proof. unfold lift. by intros [= -> ->]. Qed.

Lemma with_emitted_nil (w : world) : with_emitted w [] = w.
Proof. unfold with_emitted. rewrite app_nil_r. apply world_eta. Qed.

(** The source loop yields one frame per passage, in order, and touches
    nothing else. *)
Lemma stream_sources_ok (docs : list Document) (acc logs : list source_log) (w w' : world) :
  stream_sources docs acc w = (inr logs, w') →
  w' = with_emitted w (source_frame <$> docs).
Proof.
  revert acc w. induction docs as [|doc docs IH]; intros acc w.
  - intros [= _ <-]. by rewrite with_emitted_nil.
  - cbn [stream_sources]. intros H.
    apply bind_ok in H as ([data entry] & w1 & Hhead & H).
    apply bind_ok in H as ([] & w2 & Hyield & H).
    apply IH in H. subst w'.
    assert (w1 = w ∧ Frame "data:" data = source_frame doc) as [-> Hdata].
    { unfold source_frame. case_bool_decide.
      - destruct (metadata doc !! "title"); [|done].
        apply bind_ok in Hhead as (name & w3 & [_ ->]%lift_ok & [= <- _ <-]).
        done.
      - by injection Hhead as <- _ <-. }
    injection Hyield as <-. rewrite Hdata.
    unfold with_emitted. cbn. by rewrite <- app_assoc.
Qed.

(** The completion loop yields one frame per increment, in order, and
    accumulates the increments. *)
Lemma stream_completion_run (completion : list (option string)) (acc : string) (w : world) :
  stream_completion completion acc w
  = (inr (acc +:+ joined (increments completion)),
     with_emitted w (answer_frame <$> increments completion)).
Proof.
  revert acc w. induction completion as [|[content|] completion IH]; intros acc w.
  - simpl. by rewrite append_nil_r, with_emitted_nil.
  - cbn [stream_completion]. rewrite bind_run. cbn [yield].
    rewrite IH. cbn [increments omap id option_map mbind option_bind joined foldr fmap list_fmap].
    rewrite append_assoc. f_equal.
    unfold with_emitted. cbn. by rewrite <- app_assoc.
  - cbn [stream_completion]. by rewrite IH.
Qed.

Lemma only_calls_refl (w : world) : only_calls w w.
Proof. by repeat split. Qed.

Lemma get_docsearch_frame (vectorstore : string) (w w' : world) r :
  get_docsearch cfg C vectorstore w = (r, w') → only_calls w w'.
Proof.
  unfold get_docsearch. destruct (_ || _).
  - rewrite bind_run. cbn [log lift]. intros [= _ <-]. by repeat split.
  - intros [= _ <-]. apply only_calls_refl.
Qed.

Lemma run_answer_chain_frame l p idx question (w w' : world) r :
  run_answer_chain cfg C l p idx question w = (r, w') → only_calls w w'.
Proof.
  unfold run_answer_chain, run_conversational_chain.
  case_bool_decide; [destruct p | destruct (SELF_HOSTED_MODEL cfg); [destruct p|]];
    rewrite ?bind_run; cbn [log lift]; intros [= _ <-]; by repeat split.
Qed.

Lemma stream_messages_frame l msgs question (w w' : world) r :
  stream_messages cfg C l msgs question w = (r, w') →
  conversations_collection w' = conversations_collection w
  ∧ emitted w' = emitted w ∧ calls w' = calls w.
Proof.
  destruct (decide (1 < length (chat_history w))%nat).
  - rewrite stream_messages_long by done. by intros [= _ <-].
  - rewrite stream_messages_short by lia. by intros [= _ <-].
Qed.

Lemma select_llm_frame (w w' : world) r :
  select_llm cfg C w = (r, w') →
  conversations_collection w' = conversations_collection w
  ∧ emitted w' = emitted w ∧ calls w' = calls w.
Proof.
  unfold select_llm. case_bool_decide.
  - rewrite bind_run, answer_messages_run.
    destruct (parse_template C _) as [e|[]]; [by intros [= _ <-]|].
    destruct (assembled cfg C _) as [e|msgs]; by intros [= _ <-].
  - case_bool_decide; [by intros [= _ <-]|].
    destruct (SELF_HOSTED_MODEL cfg); [by intros [= _ <-]|].
    case_bool_decide; by intros [= _ <-].
Qed.

Lemma update_one_push_run (id : oid) (q : query) (w : world) :
  update_one_push id q w
  = (inr (),
     World (chat_history w)
       (match conversations_collection w !! id with
        | Some c => <[id := pushed c q]> (conversations_collection w)
        | None => conversations_collection w
        end)
       (emitted w) (calls w ++ [CallUpdateOne id])).
Proof.
  unfold update_one_push, mbind, M_bind, log, read_collection, write_collection.
  cbn [chat_history conversations_collection emitted calls].
  by destruct (conversations_collection w !! id).
Qed.

Lemma stream_save_ok question reponse_full logs cid (w w' : world) (id : string) :
  stream_save C question reponse_full logs cid w = (inr id, w') →
  chat_history w' = chat_history w ∧ emitted w' = emitted w
  ∧ saved C cid {| q_prompt := question; q_response := reponse_full; q_sources := logs |}
      (conversations_collection w) (conversations_collection w') id.
Proof.
  unfold stream_save, saved. destruct cid as [cid|].
  - intros H. apply bind_ok in H as (o & w1 & [Ho ->]%lift_ok & H).
    rewrite bind_run, update_one_push_run in H. injection H as <- <-.
    repeat split; try done. by exists o.
  - intros H. apply bind_ok in H as ([] & w1 & [= <-] & H).
    apply bind_ok in H as (name & w2 & [Hname ->]%lift_ok & H).
    injection H as <- <-. repeat split; try done. by exists name.
Qed.

Lemma answer_save_ok l question answer sources cid (w w' : world) (id : string) :
  answer_save C l question answer sources cid w = (inr id, w') →
  chat_history w' = chat_history w ∧ emitted w' = emitted w
  ∧ saved C cid {| q_prompt := question; q_response := answer; q_sources := sources |}
      (conversations_collection w) (conversations_collection w') id.
Proof.
  unfold answer_save, saved. destruct cid as [cid|].
  - intros H. apply bind_ok in H as (o & w1 & [Ho ->]%lift_ok & H).
    rewrite bind_run, update_one_push_run in H. injection H as <- <-.
    repeat split; try done. by exists o.
  - intros H. apply bind_ok in H as ([] & w1 & [= <-] & H).
    apply bind_ok in H as (name & w2 & [Hname ->]%lift_ok & H).
    injection H as <- <-. repeat split; try done. by exists name.
Qed.

Lemma search_run (idx : Index) (question : string) (k : nat) (w : world) :
  search idx question k w
  = (inr (similarity_search idx question k),
     with_calls w [CallSimilaritySearch question k]).
Proof. reflexivity. Qed.

(** What a run of [complete_stream] that reaches its end has done. *)
Lemma complete_stream_normal question idx cid (w w' : world) :
  complete_stream cfg C question idx cid w = (inr (), w') →
  let docs := similarity_search idx question 2 in
  let l := if is_azure_configured cfg then AzureChatOpenAI else ChatOpenAI None in
  let p := PyStr.replace (chat_combine_template cfg) "{summaries}"
             (PyStr.join newline (page_content <$> docs)) in
  ∃ w1 wm msgs completion logs id,
    chat_history w1 = chat_history w
    ∧ stream_messages cfg C l [Msg system p] question w1 = (inr msgs, wm)
    ∧ ChatCompletion_create_stream C (gpt_model cfg) msgs = inr completion
    ∧ chat_history w' = chat_history wm
    ∧ emitted w' = emitted w ++ (source_frame <$> docs)
                   ++ (answer_frame <$> increments completion)
                   ++ [Frame "data: " (PId id); Frame "data: " PEnd]
    ∧ saved C cid {| q_prompt := question;
                     q_response := joined (increments completion);
                     q_sources := logs |}
        (conversations_collection w) (conversations_collection w') id.
Proof.
  unfold complete_stream. intros H.
  rewrite bind_run, search_run in H.
  apply bind_ok in H as (logs & w1 & Hsrc & H). apply stream_sources_ok in Hsrc.
  apply bind_ok in H as (msgs & wm & Hmsgs & H).
  apply bind_ok in H as ([] & w3 & Hlog & H). injection Hlog as <-.
  apply bind_ok in H as (completion & w4 & [Hc ->]%lift_ok & H).
  rewrite bind_run, stream_completion_run, append_nil_l in H.
  apply bind_ok in H as (id & w5 & Hsave & H).
  apply stream_save_ok in Hsave as (Hh & He & Hsaved).
  rewrite bind_run in H. cbn [yield] in H. injection H as <-.
  destruct (stream_messages_frame _ _ _ _ _ _ Hmsgs) as (Hdb & Hem & _).
  exists w1, wm, msgs, completion, logs, id.
  split; [by subst w1|]. split; [done|]. split; [done|].
  cbn [chat_history emitted conversations_collection].
  split; [by rewrite Hh|]. split.
  - rewrite He. cbn [emitted with_emitted]. rewrite Hem. subst w1.
    cbn [emitted with_emitted with_calls]. by rewrite <- !app_assoc.
  - cbn [conversations_collection with_emitted] in Hsaved.
    rewrite Hdb in Hsaved. subst w1. exact Hsaved.
Qed.

(** The endpoint resolves and loads the index, then runs the generator. *)
Lemma stream_ok question cid data (w w' : world) :
  stream cfg C question cid data w = (inr (), w') →
  ∃ idx w1,
    only_calls w w1
    ∧ complete_stream cfg C question idx cid w1 = (inr (), w').
Proof.
  unfold stream. intros H.
  apply bind_ok in H as (path & w0 & Hpath & H).
  assert (w0 = w) as ->.
  { destruct (data !! "active_docs").
    - by apply lift_ok in Hpath as [_ ->].
    - by injection Hpath as _ <-. }
  apply bind_ok in H as (idx & w1 & Hload & H).
  exists idx, w1. split; [by eapply get_docsearch_frame | done].
Qed.

(** What a run of [api_answer] that returns a result has done. *)
Lemma api_answer_ok question cid data (w w' : world) (r : result) :
  api_answer cfg C question cid data w = (Ok r, w') →
  ∃ w1 w2 w3 l p idx raw,
    only_calls w w1
    ∧ select_llm cfg C w1 = (inr (l, p), w2)
    ∧ run_answer_chain cfg C l p idx question w2 = (inr raw, w3)
    ∧ chat_history w' = chat_history w2
    ∧ emitted w' = emitted w
    ∧ r_answer r = format_answer raw
    ∧ saved C cid {| q_prompt := question; q_response := r_answer r;
                     q_sources := r_sources r |}
        (conversations_collection w) (conversations_collection w')
        (r_conversation_id r).
Proof.
  unfold api_answer.
  destruct (api_answer_try cfg C question cid data w) as [[e|r0] w0] eqn:E; [done|].
  intros [= -> ->]. unfold api_answer_try in E.
  apply bind_ok in E as (path & ? & [Hpath ->]%lift_ok & E).
  apply bind_ok in E as (idx & w1 & Hload & E).
  apply get_docsearch_frame in Hload as Hw1.
  apply bind_ok in E as ([l p] & w2 & Hsel & E).
  apply bind_ok in E as (raw & w3 & Hrun & E).
  rewrite bind_run, search_run in E.
  apply bind_ok in E as (sources & ? & [Hsrc ->]%lift_ok & E).
  apply bind_ok in E as (id & w4 & Hsave & E).
  injection E as <- <-. cbn [r_answer r_sources r_conversation_id].
  apply answer_save_ok in Hsave as (Hh & He & Hsaved).
  cbn [chat_history emitted conversations_collection with_calls] in Hh, He, Hsaved.
  destruct (select_llm_frame _ _ _ Hsel) as (Hdb2 & Hem2 & _).
  destruct (run_answer_chain_frame _ _ _ _ _ _ _ Hrun) as (Hh3 & Hdb3 & Hem3).
  destruct Hw1 as (Hh1 & Hdb1 & Hem1).
  exists w1, w2, w3, l, p, idx, raw.
  split; [done|]. split; [done|]. split; [done|].
  split; [by rewrite Hh, Hh3|].
  split; [by rewrite He, Hem3, Hem2, Hem1|].
  split; [done|].
  by rewrite Hdb3, Hdb2, Hdb1 in Hsaved.
Qed.

End Runs.

(** ** The streamed event sequence *)

Example stream_scenario :
  emitted (complete_stream (Demo.settings "openai_chat")
             (Demo.backend Demo.deltas42 "") "q?" Demo.docsearch None
             (Demo.start [])).2
  = [Frame "data:" (PSource "P1" (Some {[ "title" := "docs/a.md" ]}));
     Frame "data:" (PSource "P2" None);
     Frame "data: " (PAnswer "The ");
     Frame "data: " (PAnswer "answer ");
     Frame "data: " (PAnswer "is 42.");
     Frame "data: " (PId "000000000000000000000000");
     Frame "data: " PEnd].
Proof. vm_compute. reflexivity. Qed.

(** C2: a run of the streaming handler that reaches its end has emitted
    one source frame per retrieved passage in retrieval order, then one
    answer frame per text increment of the model in generation order, then
    one id frame, then one end frame; the increments put together are the
    answer that is saved, and the id frame carries the identifier under
    which it is saved. *)
Theorem stream_event_sequence cfg C question idx cid (w w' : world) :
  complete_stream cfg C question idx cid w = (inr (), w') →
  ∃ msgs completion logs id,
    ChatCompletion_create_stream C (gpt_model cfg) msgs = inr completion
    ∧ emitted w' = emitted w
                   ++ (source_frame <$> similarity_search idx question 2)
                   ++ (answer_frame <$> increments completion)
                   ++ [Frame "data: " (PId id); Frame "data: " PEnd]
    ∧ saved C cid {| q_prompt := question;
                     q_response := joined (increments completion);
                     q_sources := logs |}
        (conversations_collection w) (conversations_collection w') id.
Proof.
  intros H.
  apply complete_stream_normal in H
    as (w1 & wm & msgs & completion & logs & id & _ & _ & Hc & _ & He & Hs).
  by exists msgs, completion, logs, id.
Qed.

Lemma stream_event_sequence_witness :
  ∃ w',
    complete_stream (Demo.settings "openai_chat") (Demo.backend Demo.deltas42 "")
      "q?" Demo.docsearch None (Demo.start []) = (inr (), w')
    ∧ ∃ msgs completion logs id,
        ChatCompletion_create_stream (Demo.backend Demo.deltas42 "")
          (gpt_model (Demo.settings "openai_chat")) msgs = inr completion
        ∧ emitted w' = emitted (Demo.start [])
                       ++ (source_frame <$> similarity_search Demo.docsearch "q?" 2)
                       ++ (answer_frame <$> increments completion)
                       ++ [Frame "data: " (PId id); Frame "data: " PEnd]
        ∧ saved (Demo.backend Demo.deltas42 "") None
            {| q_prompt := "q?"; q_response := joined (increments completion);
               q_sources := logs |}
            (conversations_collection (Demo.start []))
            (conversations_collection w') id.
Proof.
  eexists. split; [vm_compute; reflexivity|].
  apply (stream_event_sequence (Demo.settings "openai_chat")
           (Demo.backend Demo.deltas42 "") "q?" Demo.docsearch None (Demo.start [])).
  vm_compute. reflexivity.
Defined.

(** ** The sources marker *)

Lemma marker_nonempty : marker ≠ "".
Proof. done. Qed.

Lemma format_answer_before_first (raw : string) :
  format_answer raw = before_first marker (PyStr.replace raw "\n" newline).
Proof. unfold format_answer. by rewrite split_head. Qed.

Example format_answer_demo :
  format_answer Demo.chain_output = "It is 42." +:+ newline.
Proof. vm_compute. reflexivity. Qed.

Example format_answer_unescapes : format_answer "a\nb" = "a" +:+ newline +:+ "b".
Proof. vm_compute. reflexivity. Qed.

Example stream_keeps_marker :
  streamed_answer
    (emitted (complete_stream (Demo.settings "openai_chat")
                (Demo.backend Demo.deltas_with_sources "") "q?" Demo.docsearch None
                (Demo.start [])).2)
  = "It is 42. SOURCES: a.md"
  ∧ (c_queries <$> conversations_collection
       (complete_stream (Demo.settings "openai_chat")
          (Demo.backend Demo.deltas_with_sources "") "q?" Demo.docsearch None
          (Demo.start [])).2 !! 0%N)
    = Some [{| q_prompt := "q?"; q_response := "It is 42. SOURCES: a.md";
               q_sources := [{| title := "a.md"; text := "P1" |};
                             {| title := "P2"; text := "P2" |}] |}].
Proof. split; vm_compute; reflexivity. Qed.

(** C3, as stated, fails: the streaming handler hands on what the model
    produced, marker and sources section included. *)
Lemma answer_free_of_marker_fails : ¬ answer_free_of_marker.
Proof.
  intros (_ & _ & H).
  pose (run := complete_stream (Demo.settings "openai_chat")
                 (Demo.backend Demo.deltas_with_sources "") "q?" Demo.docsearch None
                 (World [] ∅ [] [])).
  assert (run = (inr (), run.2)) as Hrun by (vm_compute; reflexivity).
  apply H in Hrun. vm_compute in Hrun. discriminate Hrun.
Qed.

(** C3 (amended): the answer the synchronous handler returns and saves is
    the chain output, escaped newlines unescaped, cut before the first
    marker: it never holds the marker, everything from the marker on is
    gone, and an output without marker is kept whole. *)
Theorem api_answer_strips_marker cfg C question cid data (w w' : world) (r : result) :
  api_answer cfg C question cid data w = (Ok r, w') →
  PyStr.contains marker (r_answer r) = false
  ∧ (∃ raw l p idx w2 w3,
       run_answer_chain cfg C l p idx question w2 = (inr raw, w3)
       ∧ (PyStr.contains marker (PyStr.replace raw "\n" newline) = true →
          ∃ rest, PyStr.replace raw "\n" newline = r_answer r +:+ marker +:+ rest)
       ∧ (PyStr.contains marker (PyStr.replace raw "\n" newline) = false →
          r_answer r = PyStr.replace raw "\n" newline))
  ∧ saved C cid {| q_prompt := question; q_response := r_answer r;
                   q_sources := r_sources r |}
      (conversations_collection w) (conversations_collection w')
      (r_conversation_id r).
Proof.
  intros H.
  apply api_answer_ok in H
    as (w1 & w2 & w3 & l & p & idx & raw & _ & _ & Hrun & _ & _ & Hans & Hsaved).
  rewrite format_answer_before_first in Hans.
  split; [|split; [|done]].
  - rewrite Hans. apply before_first_clean, marker_nonempty.
  - exists raw, l, p, idx, w2, w3. split; [done|]. rewrite Hans. split.
    + apply before_first_present.
    + apply before_first_absent.
Qed.

Lemma api_answer_strips_marker_witness :
  ∃ r w',
    api_answer (Demo.settings "openai_chat") (Demo.backend [] Demo.chain_output)
      "q?" None ∅ (Demo.start []) = (Ok r, w')
    ∧ r_answer r = "It is 42." +:+ newline
    ∧ PyStr.contains marker (r_answer r) = false.
Proof.
  eexists _, _. split; [vm_compute; reflexivity|]. split; [reflexivity|].
  eapply (api_answer_strips_marker (Demo.settings "openai_chat")
            (Demo.backend [] Demo.chain_output) "q?" None ∅ (Demo.start [])).
  vm_compute. reflexivity.
Defined.

(** ** Appending to a conversation that does not exist *)

Example append_to_absent :
  (api_answer (Demo.settings "openai_chat") (Demo.backend [] Demo.chain_output)
     "q?" (Some Demo.absent_id) ∅ (Demo.start [])).1
  = Ok {| r_answer := "It is 42." +:+ newline;
          r_sources := [{| title := "docs/a.md"; text := "P1" |};
                        {| title := "P2"; text := "P2" |}];
          r_conversation_id := Demo.absent_id |}.
Proof. vm_compute. reflexivity. Qed.

Example append_malformed_id :
  (api_answer (Demo.settings "openai_chat") (Demo.backend [] Demo.chain_output)
     "q?" (Some "jeff") ∅ (Demo.start [])).1
  = bad_request 500 (InvalidId "jeff").
Proof. vm_compute. reflexivity. Qed.

(** An identifier that is not an [ObjectId] makes the save step raise
    [InvalidId] before anything is written. *)
Lemma malformed_append_raises C l question answer sources cid e (w : world) :
  Bson.ObjectId cid = inl e →
  answer_save C l question answer sources (Some cid) w = (inl e, w)
  ∧ stream_save C question answer sources (Some cid) w = (inl e, w).
Proof.
  intros He. unfold answer_save, stream_save.
  rewrite !bind_run. unfold lift. by rewrite He.
Qed.

(** C4, as stated, fails: saving under a well-formed identifier that names
    no conversation does not fail. *)
Lemma unresolved_append_fails_fails : ¬ unresolved_append_fails.
Proof.
  intros H.
  destruct (H (Demo.backend [] "") OpenAI "q?" "a" [] Demo.absent_id 255%N
              (Demo.start [])) as (e & w' & Hrun & _);
    [vm_compute; reflexivity | vm_compute; reflexivity |].
  vm_compute in Hrun. discriminate Hrun.
Qed.

(** C4 (amended): with a well-formed identifier that names no
    conversation, the save step of either handler raises nothing and
    writes nothing: the collection is as it was, no conversation is
    created, and the identifier of the request is handed back. *)
Theorem unresolved_append_is_silent C l question answer sources cid (o : oid) (w : world) :
  Bson.ObjectId cid = inr o →
  conversations_collection w !! o = None →
  answer_save C l question answer sources (Some cid) w
  = (inr cid, with_calls w [CallUpdateOne o])
  ∧ stream_save C question answer sources (Some cid) w
    = (inr cid, with_calls w [CallUpdateOne o]).
Proof.
  intros Ho Hnone. unfold answer_save, stream_save.
  rewrite !bind_run. unfold lift. rewrite Ho.
  rewrite !bind_run, update_one_push_run, Hnone. done.
Qed.

Lemma unresolved_append_is_silent_witness :
  Bson.ObjectId Demo.absent_id = inr 255%N
  ∧ conversations_collection (Demo.start []) !! 255%N = None
  ∧ answer_save (Demo.backend [] "") OpenAI "q?" "a" [] (Some Demo.absent_id)
      (Demo.start [])
    = (inr Demo.absent_id, with_calls (Demo.start []) [CallUpdateOne 255%N]).
Proof.
  split; [reflexivity|]. split; [reflexivity|].
  apply (unresolved_append_is_silent (Demo.backend [] "") OpenAI "q?" "a" []
           Demo.absent_id 255%N (Demo.start [])); reflexivity.
Defined.

(** ** An unsupported model selection *)

Example unsupported_model_run :
  api_answer (Demo.settings "llama") (Demo.backend [] "") "q?" None ∅ (Demo.start [])
  = (bad_request 500 (ValueError "unknown LLM model"),
     with_calls (Demo.start []) [CallLoadLocal "application/"]).
Proof. vm_compute. reflexivity. Qed.

(** C5, as stated, fails: the index is loaded before the model selection
    is looked at. *)
Lemma unsupported_fails_before_io_fails : ¬ unsupported_fails_before_io.
Proof.
  intros H.
  pose (run := api_answer (Demo.settings "llama") (Demo.backend [] "") "q?" None ∅
                 (Demo.start [])).
  assert (run = (run.1, run.2)) as Hrun by (vm_compute; reflexivity).
  apply H in Hrun as [_ Hcalls]; [|reflexivity].
  vm_compute in Hcalls. discriminate Hcalls.
Qed.

(** C5 (amended): with a model selection that is none of the supported
    ones, once the index has been resolved and loaded the synchronous
    handler fails with the unknown-model error, answered as a 500; the
    index load is the only call made before the failure: no similarity
    search, no generation call, and nothing is written. *)
Theorem unsupported_fails_after_load cfg C question cid data path idx (w w1 : world) :
  supported cfg = false →
  get_vectorstore data = inr path →
  get_docsearch cfg C path w = (inr idx, w1) →
  api_answer cfg C question cid data w
  = (bad_request 500 (ValueError "unknown LLM model"),
     with_calls w [CallLoadLocal path]).
Proof.
  unfold supported. intros Hsup Hpath Hload.
  apply orb_false_iff in Hsup as [Hsup Hcohere].
  apply orb_false_iff in Hsup as [Hsup Hself].
  apply orb_false_iff in Hsup as [Hchat Hopenai].
  assert (w1 = with_calls w [CallLoadLocal path]) as ->.
  { unfold get_docsearch in Hload. destruct (_ || _); [|done].
    rewrite bind_run in Hload. cbn [log lift] in Hload. by injection Hload as _ <-. }
  unfold api_answer, api_answer_try.
  rewrite bind_run. unfold lift at 1. rewrite Hpath.
  rewrite bind_run, Hload, bind_run.
  unfold select_llm. rewrite Hchat, Hopenai, Hself, Hcohere. reflexivity.
Qed.

Lemma unsupported_fails_after_load_witness :
  supported (Demo.settings "llama") = false
  ∧ get_vectorstore ∅ = inr "application/"
  ∧ api_answer (Demo.settings "llama") (Demo.backend [] "") "q?" None ∅ (Demo.start [])
    = (bad_request 500 (ValueError "unknown LLM model"),
       with_calls (Demo.start []) [CallLoadLocal "application/"]).
Proof.
  split; [reflexivity|]. split; [reflexivity|].
  apply (unsupported_fails_after_load (Demo.settings "llama") (Demo.backend [] "")
           "q?" None ∅ "application/" Demo.docsearch (Demo.start [])
           (with_calls (Demo.start []) [CallLoadLocal "application/"]));
    reflexivity.
Defined.

(** ** The prompt of the streaming handler *)

(** C6: with a history of two turns the streaming handler sends the
    system message with the passages joined by a newline, the history
    turns, and the question last; each response of the history is tagged
    [system], where the claim (and the synchronous handler) tag it
    [assistant]. *)
Theorem stream_prompt_tags_responses_system :
  calls (complete_stream (Demo.settings "openai_chat") (Demo.backend Demo.deltas42 "")
           "q?" Demo.docsearch (Some Demo.absent_id)
           (Demo.start [Demo.turn1; Demo.turn2])).2
  = [CallSimilaritySearch "q?" 2;
     CallChatCompletion "gpt-3.5-turbo"
       [Msg system ("Use this: P1" +:+ newline +:+ "P2");
        Msg user "c"; Msg system "d";
        Msg user "a"; Msg system "b";
        Msg user "q?"] true;
     CallUpdateOne 255%N]
  ∧ (answer_messages (Demo.settings "openai_chat") (Demo.backend Demo.deltas42 "")
       (ChatOpenAI None) (Demo.start [Demo.turn1; Demo.turn2])).1
    = inr [Msg system "Use this: {summaries}";
           Msg user "c"; Msg assistant "d";
           Msg user "a"; Msg assistant "b";
           Msg user "{question}"].
Proof. split; vm_compute; reflexivity. Qed.

(** * Further properties *)

(** ** Splitting and joining *)

Section SplitJoin.

Lemma join_cons (sep x : string) (l : list string) :
  l ≠ [] → PyStr.join sep (x :: l) = x +:+ sep +:+ PyStr.join sep l.
Proof. by destruct l. Qed.

Lemma string_drop_append (a b : string) :
  string_drop (String.length a) (a +:+ b) = b.
Proof. induction a as [|c a IH]; [done | by rewrite append_cons]. Qed.

(** Consuming the rest of a separator amounts to dropping it. *)
Lemma split_aux_skip (sep s : string) (k : nat) (cur : string) :
  (k ≤ String.length s)%nat →
  PyStr.split_aux sep s k cur = PyStr.split_aux sep (string_drop k s) 0 cur.
Proof.
  revert k. induction s as [|c s IH]; intros [|k] Hk; try done.
  cbn [PyStr.split_aux string_drop]. apply IH. simpl in Hk. lia.
Qed.

Lemma append_length (a b : string) :
  String.length (a +:+ b) = (String.length a + String.length b)%nat.
Proof. induction a as [|c a IH]; [done|]. rewrite append_cons. simpl. by rewrite IH. Qed.

Lemma join_split_aux (sep : string) (n : nat) :
  sep ≠ "" →
  ∀ s cur, (String.length s ≤ n)%nat →
    PyStr.join sep (PyStr.split_aux sep s 0 cur) = cur +:+ s.
Proof.
  intros Hsep. induction n as [|n IH]; intros s cur Hlen.
  - destruct s; [|simpl in Hlen; lia]. simpl. by rewrite append_nil_r.
  - destruct s as [|c s]; [simpl; by rewrite append_nil_r|].
    cbn [PyStr.split_aux].
    destruct (String.prefix sep (String c s)) eqn:Hp.
    + destruct (prefix_split _ _ Hp) as [rest Hrest].
      destruct sep as [|x sep']; [done|].
      rewrite append_cons in Hrest. injection Hrest as -> ->.
      change (String.length (String x sep') - 1)%nat
        with (S (String.length sep') - 1)%nat.
      rewrite Nat.sub_succ, Nat.sub_0_r.
      rewrite split_aux_skip by (rewrite append_length; lia).
      rewrite string_drop_append.
      rewrite join_cons by apply split_aux_nonempty.
      rewrite IH.
      * by rewrite append_nil_l, !append_cons.
      * simpl in Hlen. rewrite append_length in Hlen. lia.
    + rewrite IH by (simpl in Hlen; lia).
      by rewrite append_assoc.
Qed.

Lemma split_aux_absent (sep s cur : string) :
  PyStr.contains sep s = false → PyStr.split_aux sep s 0 cur = [cur +:+ s].
Proof.
  revert cur. induction s as [|c s IH]; intros cur.
  - intros _. simpl. by rewrite append_nil_r.
  - cbn [PyStr.contains PyStr.split_aux].
    intros [Hp Hc]%orb_false_iff. rewrite Hp, IH by done.
    by rewrite append_assoc.
Qed.


End SplitJoin.

(** Splitting a string on a separator and joining the pieces with the same
    separator gives the string back. *)
Lemma join_split (s sep : string) :
  sep ≠ "" → PyStr.join sep (PyStr.split s sep) = s.
Proof.
  intros Hsep. unfold PyStr.split.
  by rewrite (join_split_aux sep (String.length s)).
Qed.

(** ** More on the vector-store resolver *)

Example resolve_traversal :
  get_vectorstore (selector "../../etc") = inr "application/vectors/../../etc".
Proof. vm_compute. reflexivity. Qed.

(** X1: the resolver raises for exactly one request: the selector [local]
    with no name part, on which it raises [IndexError].  Every other
    selector, and the absent one, gives a path. *)
Theorem get_vectorstore_raises_iff (data : gmap string string) (e : exn) :
  get_vectorstore data = inl e ↔ data !! "active_docs" = Some "local" ∧ e = IndexError.
Proof.
  unfold get_vectorstore. destruct (data !! "active_docs") as [sel|]; [|by split; [|intros []]].
  destruct (decide (sel = "local")) as [->|Hlocal].
  { vm_compute. split; [by intros [= <-] | by intros [_ ->]]. }
  split; [|intros [[= ->] _]; done].
  destruct (PyStr.contains "/" sel) eqn:Hslash.
  - destruct (split_aux_two "/" sel "" ltac:(done) Hslash) as (a & b & rest & Hsplit).
    unfold PyStr.split. rewrite Hsplit.
    cbn [PyStr.index lookup list_lookup mbind exn_bind].
    repeat case_bool_decide; done.
  - unfold PyStr.split. rewrite split_aux_absent, append_nil_l by done.
    cbn [PyStr.index lookup list_lookup mbind exn_bind].
    rewrite (bool_decide_eq_false_2 _ Hlocal). cbn [mbind exn_bind].
    by case_bool_decide.
Qed.

(** X2: every path the resolver gives lies under the application root: it
    begins with [application/], whatever the selector. *)
Theorem get_vectorstore_rooted (data : gmap string string) (path : string) :
  get_vectorstore data = inr path → String.prefix "application/" path = true.
Proof.
  unfold get_vectorstore. destruct (data !! "active_docs") as [sel|]; [|by intros [= <-]].
  destruct (PyStr.index (PyStr.split sel "/") 0) as [e|scope];
    cbn [mbind exn_bind]; [by intros [=]|].
  destruct (bool_decide (scope = "local")).
  - destruct (PyStr.index (PyStr.split sel "/") 1) as [e|name];
      cbn [mbind exn_bind]; [by intros [=]|].
    destruct (bool_decide (name = "default")); cbn [mbind exn_bind];
      destruct (bool_decide (sel = "default")); by intros [= <-].
  - cbn [mbind exn_bind].
    destruct (bool_decide (sel = "default")); by intros [= <-].
Qed.

Lemma get_vectorstore_rooted_witness :
  get_vectorstore (selector "../../etc") = inr "application/vectors/../../etc"
  ∧ String.prefix "application/" "application/vectors/../../etc" = true.
Proof.
  split; [vm_compute; reflexivity|].
  apply (get_vectorstore_rooted (selector "../../etc")). vm_compute. reflexivity.
Defined.

(** ** Deleting an index *)

Lemma delete_one_location_others (path : string) (vectors : list (gmap string string)) :
  List.filter (λ index, negb (bool_decide (index !! "location" = Some path)))
    (delete_one_location path vectors)
  = List.filter (λ index, negb (bool_decide (index !! "location" = Some path))) vectors.
Proof.
  induction vectors as [|index rest IH]; [done|].
  cbn [delete_one_location List.filter].
  case_bool_decide; [done|]. cbn [List.filter negb].
  rewrite bool_decide_eq_false_2 by done. cbn [negb]. by rewrite IH.
Qed.

Lemma delete_one_location_length (path : string) (vectors : list (gmap string string)) :
  (length vectors ≤ length (delete_one_location path vectors) + 1)%nat.
Proof.
  induction vectors as [|index rest IH]; [simpl; lia|].
  cbn [delete_one_location]. case_bool_decide; simpl; lia.
Qed.

Example delete_old_traversal :
  delete_old id (λ _, Removed) "indexes/../../etc" Fixtures.vectors
  = (inr "ok", Fixtures.vectors, ["indexes/../../etc"]).
Proof. vm_compute. reflexivity. Qed.

(** The sanitised components are not used, and joining the pieces of the
    path gives the path back. *)
Lemma delete_old_run secure_filename rmtree (path : string)
    (vectors : list (gmap string string)) :
  delete_old secure_filename rmtree path vectors
  = if bool_decide (before_first "/" path = "indexes")
       || bool_decide (before_first "/" path = "vectors")
    then (match rmtree path with
          | RmtreeError e => inl e
          | Removed | FileNotFoundError => inr "ok"
          end, delete_one_location path vectors, [path])
    else (inr "error", vectors, []).
Proof.
  unfold delete_old. rewrite split_head.
  unfold PyStr.split. rewrite (join_split_aux "/" (String.length path)) by done.
  rewrite append_nil_l.
  destruct (_ || _); [|done]. cbn [negb]. by destruct (rmtree path).
Qed.

(** X3: [delete_old] acts only on a path whose first component is
    [indexes] or [vectors]; any other path is answered [error] with nothing
    touched.  For an accepted path the one tree handed to [rmtree] is the
    path exactly as it was given, whatever [secure_filename] makes of its
    components, and a tree that is not there is not an error. *)
Theorem delete_old_removes_given_path secure_filename rmtree (path : string)
    (vectors : list (gmap string string)) :
  let accepted := bool_decide (before_first "/" path = "indexes")
                  || bool_decide (before_first "/" path = "vectors") in
  let run := delete_old secure_filename rmtree path vectors in
  (accepted = false → run = (inr "error", vectors, []))
  ∧ (accepted = true →
     run.2 = [path]
     ∧ (rmtree path = Removed ∨ rmtree path = FileNotFoundError → run.1.1 = inr "ok")
     ∧ (∀ e, rmtree path = RmtreeError e → run.1.1 = inl e)).
Proof.
  cbn zeta. rewrite delete_old_run. split; intros ->; [done|]. cbn [fst snd].
  split; [done|]. split.
  - by intros [-> | ->].
  - by intros e ->.
Qed.

Lemma delete_old_removes_given_path_witness :
  bool_decide (before_first "/" "indexes/../../etc" = "indexes")
  || bool_decide (before_first "/" "indexes/../../etc" = "vectors") = true
  ∧ (delete_old id (λ _, FileNotFoundError) "indexes/../../etc" Fixtures.vectors).2
    = ["indexes/../../etc"].
Proof.
  split; [vm_compute; reflexivity|].
  apply (proj2 (delete_old_removes_given_path id (λ _, FileNotFoundError)
                  "indexes/../../etc" Fixtures.vectors)).
  vm_compute. reflexivity.
Defined.

(** X4: an accepted [delete_old] removes at most one document of the
    [vectors] collection, and none whose location is another path. *)
Theorem delete_old_keeps_other_indexes secure_filename rmtree (path : string)
    (vectors : list (gmap string string)) :
  let after := (delete_old secure_filename rmtree path vectors).1.2 in
  List.filter (λ index, negb (bool_decide (index !! "location" = Some path))) after
  = List.filter (λ index, negb (bool_decide (index !! "location" = Some path))) vectors
  ∧ (length vectors ≤ length after + 1)%nat.
Proof.
  rewrite delete_old_run. destruct (_ || _); cbn [fst snd].
  - split; [apply delete_one_location_others | apply delete_one_location_length].
  - split; [done | lia].
Qed.

(** ** The identifier codec *)

Section Codec.

Local Open Scope N_scope.

Lemma hex_val_char (d : N) : d < 16 → Bson.hex_val (Bson.hex_char d) = Some d.
Proof.
  intros Hd.
  assert (∃ n : nat, (n < 16)%nat ∧ d = N.of_nat n) as (n & Hn & ->).
  { exists (N.to_nat d). split; [lia | by rewrite N2Nat.id]. }
  do 16 (destruct n as [|n]; [vm_compute; reflexivity|]). lia.
Qed.

Lemma hex_digits_length (n : nat) (x : N) (acc : string) :
  String.length (Bson.hex_digits n x acc) = (n + String.length acc)%nat.
Proof.
  revert x acc. induction n as [|n IH]; intros x acc; [done|].
  cbn [Bson.hex_digits]. rewrite IH. simpl. lia.
Qed.

(** Reading back the [n] digits written in front of [acc]. *)
Lemma hex_parse_digits (n : nat) (x : N) (acc : string) (a : N) :
  hex_parse (Bson.hex_digits n x acc) a
  = hex_parse acc (a * 16 ^ N.of_nat n + x mod 16 ^ N.of_nat n).
Proof.
  revert x acc a. induction n as [|n IH]; intros x acc a.
  - cbn [Bson.hex_digits]. f_equal. change (16 ^ N.of_nat 0) with 1.
    rewrite N.mod_1_r. lia.
  - cbn [Bson.hex_digits]. rewrite IH. cbn [hex_parse].
    rewrite hex_val_char by (apply N.mod_lt; lia). f_equal.
    rewrite Nat2N.inj_succ, N.pow_succ_r'.
    rewrite (N.Div0.mod_mul_r x 16 (16 ^ N.of_nat n)). lia.
Qed.

Lemma hex_val_digit (c : ascii) (d : N) :
  Bson.hex_val c = Some d → d < 16 ∧ Bson.is_space c = false.
Proof.
  destruct c as [[] [] [] [] [] [] [] []]; vm_compute;
    (discriminate || (intros [= <-]; done)).
Qed.

(** On a string of digit pairs [bytes.fromhex] gives the bytes of the
    number the digits spell. *)
Lemma fromhex_digits (k : nat) (s : string) (a v : N) :
  String.length s = (2 * k)%nat → hex_parse s a = Some v →
  ∃ bytes, Bson.fromhex s = Some bytes ∧ length bytes = k
           ∧ foldl (λ acc b, 256 * acc + b) a bytes = v.
Proof.
  revert s a. induction k as [|k IH]; intros s a Hlen Hparse.
  - destruct s; [|done]. injection Hparse as <-. by exists [].
  - destruct s as [|c [|c' s]]; [done | simpl in Hlen; lia |].
    cbn [hex_parse] in Hparse.
    destruct (Bson.hex_val c) as [top|] eqn:Htop; [|done].
    destruct (Bson.hex_val c') as [bot|] eqn:Hbot; [|done].
    destruct (IH s _ ltac:(simpl in Hlen; lia) Hparse) as (bytes & Hb & Hl & Hv).
    exists ((16 * top + bot) :: bytes). cbn [Bson.fromhex].
    rewrite (proj2 (hex_val_digit _ _ Htop)), Htop, Hbot, Hb.
    split; [done|]. split; [by rewrite <- Hl|]. cbn [foldl]. rewrite <- Hv.
    f_equal. lia.
Qed.


Lemma spelled_snoc (bytes : list N) (b : N) :
  Bson.spelled (bytes ++ [b]) = 256 * Bson.spelled bytes + b.
Proof. unfold Bson.spelled. by rewrite foldl_app. Qed.

Lemma spelled_bound (bytes : list N) :
  Forall (λ b, b < 256) bytes →
  Bson.spelled bytes < 256 ^ N.of_nat (length bytes).
Proof.
  induction bytes as [|b bytes IH] using rev_ind; [by intros _|].
  intros [Hall Hb]%Forall_app. rewrite Forall_singleton in Hb.
  rewrite spelled_snoc, length_app, Nat.add_1_r, Nat2N.inj_succ, N.pow_succ_r'.
  specialize (IH Hall). lia.
Qed.

(** Byte strings of one length spell different numbers. *)
Lemma spelled_inj (bs cs : list N) :
  length bs = length cs →
  Forall (λ b, b < 256) bs → Forall (λ b, b < 256) cs →
  Bson.spelled bs = Bson.spelled cs → bs = cs.
Proof.
  revert cs. induction bs as [|b bs IH] using rev_ind; intros cs Hlen.
  - by destruct cs.
  - destruct cs as [|c cs _] using rev_ind.
    { rewrite length_app in Hlen. simpl in Hlen. lia. }
    rewrite !length_app in Hlen. simpl in Hlen.
    intros [Hbs Hb]%Forall_app [Hcs Hc]%Forall_app.
    rewrite Forall_singleton in Hb, Hc. rewrite !spelled_snoc. intros Heq.
    assert (b = c) as -> by lia.
    f_equal. apply IH; [lia | done | done | lia].
Qed.

Lemma pow_256_step (a b : nat) :
  (a < b)%nat → 2 * 256 ^ N.of_nat a ≤ 256 ^ N.of_nat b.
Proof.
  intros Hab. replace b with (Datatypes.S (b - 1))%nat by lia.
  rewrite Nat2N.inj_succ, N.pow_succ_r'.
  assert (256 ^ N.of_nat a ≤ 256 ^ N.of_nat (b - 1)) by (apply N.pow_le_mono_r; lia).
  lia.
Qed.

(** Identifiers are kept apart: different byte strings are kept as
    different numbers. *)
Lemma number_inj (bs cs : list N) :
  Forall (λ b, b < 256) bs → Forall (λ b, b < 256) cs →
  Bson.number bs = Bson.number cs → bs = cs.
Proof.
  intros Hbs Hcs. unfold Bson.number.
  pose proof (spelled_bound _ Hbs) as Hb. pose proof (spelled_bound _ Hcs) as Hc.
  change (16 ^ 24) with (256 ^ N.of_nat 12).
  destruct (Nat.eqb_spec (length bs) 12) as [Hlb|Hlb];
    destruct (Nat.eqb_spec (length cs) 12) as [Hlc|Hlc].
  - apply spelled_inj; [congruence | done | done].
  - rewrite Hlb in Hb. lia.
  - rewrite Hlc in Hc. lia.
  - intros Heq.
    destruct (lt_eq_lt_dec (length bs) (length cs)) as [[Hlt|Hl]|Hlt].
    + pose proof (pow_256_step _ _ Hlt). lia.
    + apply spelled_inj; [done | done | done |]. rewrite Hl in Heq. lia.
    + pose proof (pow_256_step _ _ Hlt). lia.
Qed.

End Codec.

(** An identifier that fits in twelve bytes is printed as 24 characters,
    and parsing what was printed gives the identifier back. *)
Lemma ObjectId_str (x : oid) :
  (x < oid_bound)%N →
  String.length (Bson.str x) = 24%nat ∧ Bson.ObjectId (Bson.str x) = inr x.
Proof.
  intros Hx. unfold Bson.str, Bson.ObjectId.
  rewrite hex_digits_length. split; [done|]. cbn [String.length Nat.add Nat.eqb].
  destruct (fromhex_digits 12 (Bson.hex_digits 24 x "") 0 x) as (bytes & -> & Hl & Hv).
  - by rewrite hex_digits_length.
  - rewrite hex_parse_digits. cbn [hex_parse].
    rewrite N.mul_0_l, N.add_0_l. change (16 ^ N.of_nat 24)%N with oid_bound.
    by rewrite N.mod_small.
  - unfold Bson.number. rewrite Hl. cbn [Nat.eqb]. by rewrite <- Hv.
Qed.


(** ** What every run keeps *)

Lemma bind_inv {A B} (m : M A) (f : A → M B) (w w' : world) (r : exn + B) :
  (m ≫= f) w = (r, w') →
  (∃ e, m w = (inl e, w') ∧ r = inl e)
  ∨ (∃ a w1, m w = (inr a, w1) ∧ f a w1 = (r, w')).
Proof.
  rewrite bind_run. destruct (m w) as [[e|a] w1].
  - intros [= <- <-]. left. by exists e.
  - intros H. right. by exists a, w1.
Qed.

Lemma lift_inv {A} (x r : exn + A) (w w' : world) :
  lift x w = (r, w') → r = x ∧ w' = w.
Proof. unfold lift. by intros [= -> ->]. Qed.

#[local] Instance calls_grow_preorder : PreOrder calls_grow.
Proof.
  split.
  - intros w. exists []. by rewrite app_nil_r.
  - intros w1 w2 w3 [a Ha] [b Hb]. exists (a ++ b). by rewrite Hb, Ha, app_assoc.
Qed.

#[local] Instance same_history_preorder : PreOrder same_history.
Proof.
  split; [done|]. unfold same_history. intros w1 w2 w3 H1 H2. by rewrite H2.
Qed.

#[local] Instance same_collection_preorder : PreOrder same_collection.
Proof.
  split; [done|]. unfold same_collection. intros w1 w2 w3 H1 H2. by rewrite H2.
Qed.

#[local] Instance content_grows_preorder : PreOrder content_grows.
Proof.
  split.
  - intros w. exists []. by rewrite app_nil_r.
  - intros w1 w2 w3 (a & Ha & Fa) (b & Hb & Fb). exists (a ++ b).
    split; [by rewrite Hb, Ha, app_assoc | by apply Forall_app].
Qed.

Section Keeps.

Context (P : world → world → Prop) `{!PreOrder P}.
Context (cfg : Settings) (C : Collaborators).

Lemma keeps_ret {A} (a : A) : keeps P (mret a).
Proof. by intros w r w' [= _ <-]. Qed.

Lemma keeps_lift {A} (x : exn + A) : keeps P (lift x).
Proof. by intros w r w' [= _ <-]. Qed.

Lemma keeps_bind {A B} (m : M A) (f : A → M B) :
  keeps P m → (∀ a, keeps P (f a)) → keeps P (m ≫= f).
Proof.
  intros Hm Hf w r w' H.
  apply bind_inv in H as [(e & H & _) | (a & w1 & H1 & H2)].
  - by eapply Hm.
  - etrans; [by eapply Hm | by eapply Hf].
Qed.

Lemma keeps_read_history : keeps P read_history.
Proof. by intros w r w' [= _ <-]. Qed.

Lemma keeps_read_collection : keeps P read_collection.
Proof. by intros w r w' [= _ <-]. Qed.

(** The primitive steps that change the world. *)
Hypothesis keeps_log : ∀ c, keeps P (log c).

Lemma keeps_search idx question k : keeps P (search idx question k).
Proof. apply keeps_bind; [apply keeps_log | intros; apply keeps_ret]. Qed.

Lemma keeps_get_docsearch vectorstore : keeps P (get_docsearch cfg C vectorstore).
Proof.
  unfold get_docsearch. destruct (_ || _); [|apply keeps_lift].
  apply keeps_bind; [apply keeps_log | intros; apply keeps_lift].
Qed.

Lemma keeps_run_answer_chain l p idx question :
  keeps P (run_answer_chain cfg C l p idx question).
Proof.
  unfold run_answer_chain, run_conversational_chain.
  case_bool_decide; [destruct p | destruct (SELF_HOSTED_MODEL cfg); [destruct p|]];
    try apply keeps_lift;
    (apply keeps_bind; [apply keeps_log | intros; apply keeps_lift]).
Qed.

Lemma keeps_select_llm_other :
  LLM_NAME cfg ≠ "openai_chat" → keeps P (select_llm cfg C).
Proof.
  intros Hother. unfold select_llm. rewrite bool_decide_eq_false_2 by done.
  case_bool_decide; [apply keeps_ret|].
  destruct (SELF_HOSTED_MODEL cfg); [apply keeps_ret|].
  case_bool_decide; [apply keeps_ret | apply keeps_lift].
Qed.

Hypothesis keeps_write : ∀ db, keeps P (write_collection db).

Lemma keeps_update_one_push id q : keeps P (update_one_push id q).
Proof.
  unfold update_one_push.
  apply keeps_bind; [apply keeps_log | intros _].
  apply keeps_bind; [apply keeps_read_collection | intros db].
  destruct (db !! id); [apply keeps_write | apply keeps_ret].
Qed.

Lemma keeps_insert_one c : keeps P (insert_one c).
Proof.
  unfold insert_one.
  apply keeps_bind; [apply keeps_read_collection | intros db].
  apply keeps_bind; [apply keeps_log | intros _].
  apply keeps_bind; [apply keeps_write | intros _]. apply keeps_ret.
Qed.

Lemma keeps_stream_save question reponse_full logs cid :
  keeps P (stream_save C question reponse_full logs cid).
Proof.
  unfold stream_save. destruct cid as [cid|].
  - apply keeps_bind; [apply keeps_lift | intros id].
    apply keeps_bind; [apply keeps_update_one_push | intros; apply keeps_ret].
  - apply keeps_bind; [apply keeps_log | intros _].
    apply keeps_bind; [apply keeps_lift | intros name].
    apply keeps_bind; [apply keeps_insert_one | intros; apply keeps_ret].
Qed.

Lemma keeps_answer_save l question answer sources cid :
  keeps P (answer_save C l question answer sources cid).
Proof.
  unfold answer_save. destruct cid as [cid|].
  - apply keeps_bind; [apply keeps_lift | intros id].
    apply keeps_bind; [apply keeps_update_one_push | intros; apply keeps_ret].
  - apply keeps_bind; [apply keeps_log | intros _].
    apply keeps_bind; [apply keeps_lift | intros name].
    apply keeps_bind; [apply keeps_insert_one | intros; apply keeps_ret].
Qed.

(** [api_answer] once the model is selected. *)
Lemma keeps_answer_rest l p_chat_combine question cid idx :
  keeps P
    (answer ← run_answer_chain cfg C l p_chat_combine idx question;
     let answer := format_answer answer in
     sources ← search idx question 2;
     sources_doc ← lift (collect_sources sources []);
     conversation_id ← answer_save C l question answer sources_doc cid;
     mret {| r_answer := answer; r_sources := sources_doc;
             r_conversation_id := conversation_id |}).
Proof.
  apply keeps_bind; [apply keeps_run_answer_chain | intros raw].
  apply keeps_bind; [apply keeps_search | intros sources].
  apply keeps_bind; [apply keeps_lift | intros sources_doc].
  apply keeps_bind; [apply keeps_answer_save | intros; apply keeps_ret].
Qed.

(** [api_answer] from the model selection on, once the selection is known
    to keep [P]. *)
Lemma keeps_answer_tail question cid idx :
  keeps P (select_llm cfg C) →
  keeps P
    ('(l, p_chat_combine) ← select_llm cfg C;
     answer ← run_answer_chain cfg C l p_chat_combine idx question;
     let answer := format_answer answer in
     sources ← search idx question 2;
     sources_doc ← lift (collect_sources sources []);
     conversation_id ← answer_save C l question answer sources_doc cid;
     mret {| r_answer := answer; r_sources := sources_doc;
             r_conversation_id := conversation_id |}).
Proof.
  intros Hsel.
  apply keeps_bind; [apply Hsel | intros [l p]].
  apply keeps_answer_rest.
Qed.

Lemma keeps_api_answer_try question cid data :
  keeps P (select_llm cfg C) → keeps P (api_answer_try cfg C question cid data).
Proof.
  intros Hsel. unfold api_answer_try.
  apply keeps_bind; [apply keeps_lift | intros path].
  apply keeps_bind; [apply keeps_get_docsearch | intros idx].
  by apply keeps_answer_tail.
Qed.

Hypothesis keeps_reverse : keeps P reverse_history.

Lemma keeps_budget_history l msgs : keeps P (budget_history cfg C l msgs).
Proof.
  unfold budget_history.
  apply keeps_bind; [apply keeps_reverse | intros _].
  apply keeps_bind; [apply keeps_read_history | intros; apply keeps_ret].
Qed.

Lemma keeps_answer_budget_history l msgs :
  keeps P (answer_budget_history cfg C l msgs).
Proof.
  unfold answer_budget_history.
  apply keeps_bind; [apply keeps_reverse | intros _].
  apply keeps_bind; [apply keeps_read_history | intros history].
  apply keeps_bind; [apply keeps_lift | intros; apply keeps_ret].
Qed.

Lemma keeps_answer_messages l : keeps P (answer_messages cfg C l).
Proof.
  unfold answer_messages.
  apply keeps_bind; [apply keeps_lift | intros system_message].
  apply keeps_bind; [apply keeps_read_history | intros h].
  apply keeps_bind; [|intros; apply keeps_ret].
  case_bool_decide; [apply keeps_answer_budget_history | apply keeps_ret].
Qed.

Lemma keeps_stream_messages l msgs question :
  keeps P (stream_messages cfg C l msgs question).
Proof.
  unfold stream_messages.
  apply keeps_bind; [apply keeps_read_history | intros h].
  apply keeps_bind; [|intros; apply keeps_ret].
  case_bool_decide; [apply keeps_budget_history | apply keeps_ret].
Qed.

Lemma keeps_select_llm : keeps P (select_llm cfg C).
Proof.
  destruct (decide (LLM_NAME cfg = "openai_chat")) as [Hchat|Hother];
    [|by apply keeps_select_llm_other].
  unfold select_llm. rewrite bool_decide_eq_true_2 by done.
  apply keeps_bind; [apply keeps_answer_messages | intros; apply keeps_ret].
Qed.

Hypothesis keeps_yield : ∀ e, keeps P (yield e).

Lemma keeps_stream_sources docs acc : keeps P (stream_sources docs acc).
Proof.
  revert acc. induction docs as [|doc docs IH]; intros acc; [apply keeps_ret|].
  cbn [stream_sources].
  apply keeps_bind; [|intros [data entry]].
  - case_bool_decide; [|apply keeps_ret].
    destruct (metadata doc !! "title"); [|apply keeps_lift].
    apply keeps_bind; [apply keeps_lift | intros; apply keeps_ret].
  - apply keeps_bind; [apply keeps_yield | intros _; apply IH].
Qed.

Lemma keeps_stream_completion completion acc :
  keeps P (stream_completion completion acc).
Proof.
  revert acc. induction completion as [|[content|] completion IH]; intros acc;
    cbn [stream_completion]; [apply keeps_ret | | apply IH].
  apply keeps_bind; [apply keeps_yield | intros _; apply IH].
Qed.

Lemma keeps_complete_stream question idx cid :
  keeps P (complete_stream cfg C question idx cid).
Proof.
  unfold complete_stream.
  apply keeps_bind; [apply keeps_search | intros docs].
  apply keeps_bind; [apply keeps_stream_sources | intros logs].
  apply keeps_bind; [apply keeps_stream_messages | intros msgs].
  apply keeps_bind; [apply keeps_log | intros _].
  apply keeps_bind; [apply keeps_lift | intros completion].
  apply keeps_bind; [apply keeps_stream_completion | intros full].
  apply keeps_bind; [apply keeps_stream_save | intros id].
  apply keeps_bind; [apply keeps_yield | intros _; apply keeps_yield].
Qed.

End Keeps.

Section FailsKeep.

Context (P : world → world → Prop) `{!PreOrder P}.

Lemma fails_keep_of_keeps {A} (m : M A) : keeps P m → fails_keep P m.
Proof. intros Hm w e w' H. by eapply Hm. Qed.

Lemma fails_keep_bind {A B} (m : M A) (f : A → M B) :
  keeps P m → (∀ a, fails_keep P (f a)) → fails_keep P (m ≫= f).
Proof.
  intros Hm Hf w e w' H.
  apply bind_inv in H as [(e' & H & _) | (a & w1 & H1 & H2)].
  - by eapply Hm.
  - etrans; [by eapply Hm | by eapply Hf].
Qed.

Lemma fails_keep_last {A B} (m : M A) (f : A → M B) :
  fails_keep P m → (∀ a, never_fails (f a)) → fails_keep P (m ≫= f).
Proof.
  intros Hm Hf w e w' H.
  apply bind_inv in H as [(e' & H & [= <-]) | (a & w1 & H1 & H2)].
  - by eapply Hm.
  - by apply Hf in H2.
Qed.

End FailsKeep.

Lemma never_fails_ret {A} (a : A) : never_fails (mret a : M A).
Proof. by intros w e w'. Qed.

Lemma never_fails_yields (e1 e2 : sse) : never_fails (yield e1;; yield e2).
Proof. by intros w e w'. Qed.

Lemma keeps_log_calls c : keeps calls_grow (log c).
Proof. intros w r w' [= _ <-]. by exists [c]. Qed.

Lemma keeps_write_calls db : keeps calls_grow (write_collection db).
Proof. intros w r w' [= _ <-]. exists []. simpl. by rewrite app_nil_r. Qed.

Lemma keeps_reverse_calls : keeps calls_grow reverse_history.
Proof. intros w r w' [= _ <-]. exists []. simpl. by rewrite app_nil_r. Qed.

Lemma keeps_yield_calls e : keeps calls_grow (yield e).
Proof. intros w r w' [= _ <-]. exists []. simpl. by rewrite app_nil_r. Qed.

Lemma keeps_log_history c : keeps same_history (log c).
Proof. by intros w r w' [= _ <-]. Qed.

Lemma keeps_write_history db : keeps same_history (write_collection db).
Proof. by intros w r w' [= _ <-]. Qed.

Lemma keeps_log_collection c : keeps same_collection (log c).
Proof. by intros w r w' [= _ <-]. Qed.

Lemma keeps_reverse_collection : keeps same_collection reverse_history.
Proof. by intros w r w' [= _ <-]. Qed.

Lemma keeps_yield_collection e : keeps same_collection (yield e).
Proof. by intros w r w' [= _ <-]. Qed.

Lemma keeps_log_content c : keeps content_grows (log c).
Proof. intros w r w' [= _ <-]. exists []. simpl. by rewrite app_nil_r. Qed.

Lemma keeps_write_content db : keeps content_grows (write_collection db).
Proof. intros w r w' [= _ <-]. exists []. simpl. by rewrite app_nil_r. Qed.

Lemma keeps_reverse_content : keeps content_grows reverse_history.
Proof. intros w r w' [= _ <-]. exists []. simpl. by rewrite app_nil_r. Qed.

(** The source loop emits content frames only, on every run. *)
Lemma keeps_stream_sources_content docs acc :
  keeps content_grows (stream_sources docs acc).
Proof.
  revert acc. induction docs as [|doc docs IH]; intros acc; [apply keeps_ret; apply _|].
  cbn [stream_sources]. intros w r w' H.
  apply bind_inv in H as [(e & H & _) | ([data entry] & w1 & Hhead & H)].
  - assert (w' = w) as ->; [|reflexivity].
    case_bool_decide; [|done].
    destruct (metadata doc !! "title"); [|by apply lift_inv in H as [_ ->]].
    apply bind_inv in H as [(e' & H & _) | (a & w1 & _ & H)]; [|done].
    by apply lift_inv in H as [_ ->].
  - assert (w1 = w ∧ is_content_frame (Frame "data:" data) = true) as [-> Hdata].
    { case_bool_decide.
      - destruct (metadata doc !! "title"); [|done].
        apply bind_ok in Hhead as (name & w3 & [_ ->]%lift_ok & [= <- _ <-]). done.
      - by injection Hhead as <- _ <-. }
    apply bind_inv in H as [(e & H & _) | ([] & w2 & Hy & H)]; [done|].
    injection Hy as <-. apply IH in H. etrans; [|exact H].
    exists [Frame "data:" data]. split; [done | by constructor].
Qed.

Lemma keeps_stream_completion_content completion acc :
  keeps content_grows (stream_completion completion acc).
Proof.
  intros w r w'. rewrite stream_completion_run. intros [= _ <-].
  exists (answer_frame <$> increments completion). split; [done|].
  apply Forall_fmap, Forall_true. done.
Qed.

(** A run of the streaming handler that raises has emitted content frames
    only. *)
Lemma complete_stream_fails_content cfg C question idx cid :
  fails_keep content_grows (complete_stream cfg C question idx cid).
Proof.
  unfold complete_stream.
  apply fails_keep_bind; [apply _ | apply keeps_search, keeps_log_content; apply _ | intros docs].
  apply fails_keep_bind; [apply _ | apply keeps_stream_sources_content | intros logs].
  apply fails_keep_bind; [apply _ | | intros msgs].
  { apply keeps_stream_messages; [apply _ | apply keeps_reverse_content]. }
  apply fails_keep_bind; [apply _ | apply keeps_log_content | intros _].
  apply fails_keep_bind; [apply _ | apply keeps_lift; apply _ | intros completion].
  apply fails_keep_bind; [apply _ | apply keeps_stream_completion_content | intros full].
  apply fails_keep_last.
  - apply fails_keep_of_keeps, keeps_stream_save;
      [apply _ | apply keeps_log_content | apply keeps_write_content].
  - intros id. apply never_fails_yields.
Qed.

Lemma api_answer_run cfg C question cid data (w : world) :
  api_answer cfg C question cid data w
  = match api_answer_try cfg C question cid data w with
    | (inr r, w') => (Ok r, w')
    | (inl e, w') => (bad_request 500 e, w')
    end.
Proof. reflexivity. Qed.

(** ** Streams that break off *)

Example broken_stream :
  complete_stream (Demo.settings "openai_chat") Fixtures.broken "q?" Demo.docsearch None
    (Demo.start [])
  = (inl (CollaboratorError "timeout"),
     World [] ∅
       [Frame "data:" (PSource "P1" (Some {[ "title" := "docs/a.md" ]}));
        Frame "data:" (PSource "P2" None)]
       [CallSimilaritySearch "q?" 2;
        CallChatCompletion "gpt-3.5-turbo"
          [Msg system ("Use this: P1" +:+ newline +:+ "P2"); Msg user "q?"] true]).
Proof. vm_compute. reflexivity. Qed.

(** X5: a run of the streaming handler that raises has emitted passage
    and answer frames only: no id frame and no end frame.  The end frame
    is the mark of a run that reached its end. *)
Theorem failed_stream_has_no_end cfg C question idx cid (w w' : world) (e : exn) :
  complete_stream cfg C question idx cid w = (inl e, w') →
  ∃ frames,
    emitted w' = emitted w ++ frames
    ∧ Forall (λ f, frame_payload f ≠ PEnd ∧ ∀ id, frame_payload f ≠ PId id) frames.
Proof.
  intros H. apply complete_stream_fails_content in H as (frames & He & Hf).
  exists frames. split; [done|].
  eapply Forall_impl; [exact Hf|]. intros [pre pay] Hc.
  unfold is_content_frame in Hc. cbn in *. by destruct pay.
Qed.

Lemma failed_stream_has_no_end_witness :
  ∃ w' frames,
    complete_stream (Demo.settings "openai_chat") Fixtures.broken "q?" Demo.docsearch
      None (Demo.start []) = (inl (CollaboratorError "timeout"), w')
    ∧ emitted w' = emitted (Demo.start []) ++ frames
    ∧ Forall (λ f, frame_payload f ≠ PEnd ∧ ∀ id, frame_payload f ≠ PId id) frames.
Proof.
  eexists. 
  assert (complete_stream (Demo.settings "openai_chat") Fixtures.broken "q?"
            Demo.docsearch None (Demo.start [])
          = (inl (CollaboratorError "timeout"),
             (complete_stream (Demo.settings "openai_chat") Fixtures.broken "q?"
                Demo.docsearch None (Demo.start [])).2)) as Hrun
    by (vm_compute; reflexivity).
  destruct (failed_stream_has_no_end _ _ _ _ _ _ _ _ Hrun) as (frames & He & Hf).
  exists frames. split; [exact Hrun|]. split; [exact He | exact Hf].
Defined.

(** ** Requests that fail write nothing *)

Lemma never_fails_update_then_ret id q (cid : string) :
  never_fails (update_one_push id q;; mret cid).
Proof. intros w e w'. by rewrite bind_run, update_one_push_run. Qed.

Lemma never_fails_insert_then_ret c :
  never_fails (id ← insert_one c; mret (Bson.str id)).
Proof. by intros w e w'. Qed.

Lemma stream_save_fails_keep C question reponse_full logs cid :
  fails_keep same_collection (stream_save C question reponse_full logs cid).
Proof.
  unfold stream_save. destruct cid as [cid|].
  - apply fails_keep_last; [|intros; apply never_fails_update_then_ret].
    apply fails_keep_of_keeps, keeps_lift; apply _.
  - apply fails_keep_bind; [apply _ | apply keeps_log_collection | intros _].
    apply fails_keep_last; [|intros; apply never_fails_insert_then_ret].
    apply fails_keep_of_keeps, keeps_lift; apply _.
Qed.

Lemma answer_save_fails_keep C l question answer sources cid :
  fails_keep same_collection (answer_save C l question answer sources cid).
Proof.
  unfold answer_save. destruct cid as [cid|].
  - apply fails_keep_last; [|intros; apply never_fails_update_then_ret].
    apply fails_keep_of_keeps, keeps_lift; apply _.
  - apply fails_keep_bind; [apply _ | apply keeps_log_collection | intros _].
    apply fails_keep_last; [|intros; apply never_fails_insert_then_ret].
    apply fails_keep_of_keeps, keeps_lift; apply _.
Qed.

Lemma api_answer_try_fails_keep cfg C question cid data :
  fails_keep same_collection (api_answer_try cfg C question cid data).
Proof.
  unfold api_answer_try.
  apply fails_keep_bind; [apply _ | apply keeps_lift; apply _ | intros path].
  apply fails_keep_bind; [apply _ | | intros idx].
  { apply keeps_get_docsearch; [apply _ | apply keeps_log_collection]. }
  apply fails_keep_bind; [apply _ | | intros [l p]].
  { apply keeps_select_llm; [apply _ | apply keeps_reverse_collection]. }
  apply fails_keep_bind; [apply _ | | intros raw].
  { apply keeps_run_answer_chain; [apply _ | apply keeps_log_collection]. }
  apply fails_keep_bind; [apply _ | | intros sources].
  { apply keeps_search; [apply _ | apply keeps_log_collection]. }
  apply fails_keep_bind; [apply _ | apply keeps_lift; apply _ | intros sources_doc].
  apply fails_keep_last; [apply answer_save_fails_keep|].
  intros id. apply never_fails_ret.
Qed.

Lemma complete_stream_fails_keep cfg C question idx cid :
  fails_keep same_collection (complete_stream cfg C question idx cid).
Proof.
  unfold complete_stream.
  apply fails_keep_bind; [apply _ | | intros docs].
  { apply keeps_search; [apply _ | apply keeps_log_collection]. }
  apply fails_keep_bind; [apply _ | | intros logs].
  { apply keeps_stream_sources; [apply _ | apply keeps_yield_collection]. }
  apply fails_keep_bind; [apply _ | | intros msgs].
  { apply keeps_stream_messages; [apply _ | apply keeps_reverse_collection]. }
  apply fails_keep_bind; [apply _ | apply keeps_log_collection | intros _].
  apply fails_keep_bind; [apply _ | apply keeps_lift; apply _ | intros completion].
  apply fails_keep_bind; [apply _ | | intros full].
  { apply keeps_stream_completion; [apply _ | apply keeps_yield_collection]. }
  apply fails_keep_last; [apply stream_save_fails_keep|].
  intros id. apply never_fails_yields.
Qed.

(** X6: a request that fails writes nothing: when [api_answer] answers
    with an error, or [complete_stream] raises, the conversation
    collection is as it was before the request. *)
Theorem failed_request_writes_nothing cfg C question cid data idx (w w' : world) :
  (∀ status e, api_answer cfg C question cid data w = (bad_request status e, w') →
               conversations_collection w' = conversations_collection w)
  ∧ (∀ e, complete_stream cfg C question idx cid w = (inl e, w') →
          conversations_collection w' = conversations_collection w).
Proof.
  split.
  - intros status e. rewrite api_answer_run.
    destruct (api_answer_try cfg C question cid data w) as [[e'|r] w1] eqn:E; [|done].
    intros [= _ _ <-]. by apply api_answer_try_fails_keep in E.
  - intros e H. by apply complete_stream_fails_keep in H.
Qed.

Lemma failed_request_writes_nothing_witness :
  ∃ w',
    api_answer (Demo.settings "openai_chat") Fixtures.broken "q?" None ∅
      Fixtures.one_conversation
    = (bad_request 500 (CollaboratorError "timeout"), w')
    ∧ conversations_collection w' = conversations_collection Fixtures.one_conversation.
Proof.
  eexists. split; [vm_compute; reflexivity|].
  eapply (proj1 (failed_request_writes_nothing (Demo.settings "openai_chat")
                   Fixtures.broken "q?" None ∅ Demo.docsearch
                   Fixtures.one_conversation _)).
  vm_compute. reflexivity.
Defined.

(** ** The history and the other backends *)

(** X7: with a model selection other than the chat model, [api_answer]
    leaves the caller's history list exactly as it was, whatever the
    outcome: the list is reversed in the chat-model branch only. *)
Theorem other_backends_leave_history cfg C question cid data (w w' : world) resp :
  LLM_NAME cfg ≠ "openai_chat" →
  api_answer cfg C question cid data w = (resp, w') →
  chat_history w' = chat_history w.
Proof.
  intros Hother. rewrite api_answer_run.
  destruct (api_answer_try cfg C question cid data w) as [r w1] eqn:E.
  assert (same_history w w1) as Hsame.
  { eapply keeps_api_answer_try; [apply _ | apply keeps_log_history
      | apply keeps_write_history | | exact E].
    apply keeps_select_llm_other; [apply _ | done]. }
  destruct r; by intros [= _ <-].
Qed.

Lemma other_backends_leave_history_witness :
  LLM_NAME (Demo.settings "openai") ≠ "openai_chat"
  ∧ ∃ resp w',
      api_answer (Demo.settings "openai") (Demo.backend [] "fine") "q?" None ∅
        (Demo.start [Demo.turn1; Demo.turn2]) = (resp, w')
      ∧ chat_history w' = [Demo.turn1; Demo.turn2].
Proof.
  split; [done|]. eexists _, _. split; [vm_compute; reflexivity|].
  eapply (other_backends_leave_history (Demo.settings "openai") (Demo.backend [] "fine")
            "q?" None ∅ (Demo.start [Demo.turn1; Demo.turn2])); [done|].
  vm_compute. reflexivity.
Defined.

(** ** The caller's history list *)

Example other_backend_keeps_order :
  chat_history (api_answer (Demo.settings "openai") (Demo.backend [] "fine") "q?" None ∅
                  (Demo.start [Demo.turn1; Demo.turn2])).2
  = [Demo.turn1; Demo.turn2].
Proof. vm_compute. reflexivity. Qed.

(** C10, as stated, fails: with a model selection other than the chat
    model the synchronous handler never reaches the budgeting step, and
    the caller's list is in the order it was supplied in. *)
Lemma history_always_reversed_fails : ¬ history_always_reversed.
Proof.
  intros H.
  pose (run := api_answer (Demo.settings "openai") (Demo.backend [] "fine") "q?" None ∅
                 (Demo.start [Demo.turn1; Demo.turn2])).
  assert (run = (run.1, run.2)) as Hrun by (vm_compute; reflexivity).
  destruct (H (Demo.settings "openai") (Demo.backend [] "fine") "q?" Demo.docsearch None ∅
              (Demo.start [Demo.turn1; Demo.turn2])) as [_ Hanswer]; [simpl; lia|].
  apply Hanswer in Hrun.
  apply (f_equal (fmap (M := list) (λ t : turn, t !! "prompt"))) in Hrun.
  vm_compute in Hrun. discriminate Hrun.
Qed.

(** C10 (amended): when the history has more than one turn, the budgeting
    step reverses the caller's list in place, in both handlers, and
    nothing puts it back.  After a stream that ran to its end the list is
    the reverse of what was supplied.  The synchronous handler runs the
    step in the chat-model configuration only, once the index is loaded
    and the system template parsed: from there on the list is the reverse
    of what was supplied whatever the response, an error included; with
    any other model selection the list is as it was supplied. *)
Theorem history_reversed_in_place cfg C question idx cid data (w : world) :
  (1 < length (chat_history w))%nat →
  (∀ l msgs,
     chat_history (stream_messages cfg C l msgs question w).2 = reverse (chat_history w))
  ∧ (∀ l, parse_template C (chat_combine_template cfg) = inr () →
          chat_history (answer_messages cfg C l w).2 = reverse (chat_history w))
  ∧ (∀ w', complete_stream cfg C question idx cid w = (inr (), w') →
           chat_history w' = reverse (chat_history w))
  ∧ (∀ path i w1 resp w',
       LLM_NAME cfg = "openai_chat" →
       get_vectorstore data = inr path →
       get_docsearch cfg C path w = (inr i, w1) →
       parse_template C (chat_combine_template cfg) = inr () →
       api_answer cfg C question cid data w = (resp, w') →
       chat_history w' = reverse (chat_history w))
  ∧ (∀ resp w',
       LLM_NAME cfg ≠ "openai_chat" →
       api_answer cfg C question cid data w = (resp, w') →
       chat_history w' = chat_history w).
Proof.
  intros Hlen. split; [|split; [|split; [|split]]].
  - intros l msgs. by rewrite stream_messages_long.
  - intros l Htpl. by rewrite answer_messages_run, Htpl.
  - intros w' H.
    apply complete_stream_normal in H
      as (w1 & wm & msgs & completion & logs & id & Hh1 & Hm & _ & Hh & _).
    rewrite stream_messages_long in Hm by (by rewrite Hh1).
    injection Hm as _ <-. by rewrite Hh, <- Hh1.
  - intros path i w1 resp w' Hchat Hpath Hload Htpl. rewrite api_answer_run.
    destruct (api_answer_try cfg C question cid data w) as [r w0] eqn:E.
    assert (chat_history w0 = reverse (chat_history w)) as Hrev.
    { unfold api_answer_try in E.
      apply bind_inv in E as [(e & E & _) | (path' & wp & [Hp ->]%lift_inv & E)].
      { apply lift_inv in E as [E _]. congruence. }
      assert (path' = path) as -> by congruence.
      rewrite bind_run, Hload in E.
      destruct (get_docsearch_frame _ _ _ _ _ _ Hload) as (Hh1 & _).
      assert (∀ x w2, select_llm cfg C w1 = (x, w2) → w2 = reversed w1) as Hsel.
      { intros x w2. unfold select_llm. rewrite bool_decide_eq_true_2 by done.
        rewrite bind_run, answer_messages_run, Htpl.
        destruct (assembled cfg C _); by intros [= _ <-]. }
      apply bind_inv in E as [(e & E & _) | ([l p] & w2 & E1 & E)].
      - apply Hsel in E as ->. cbn. by rewrite Hh1.
      - apply Hsel in E1 as ->.
        assert (same_history (reversed w1) w0) as Hsame.
        { eapply (keeps_answer_rest same_history cfg C keeps_log_history
                    keeps_write_history l p question cid i). exact E. }
        rewrite Hsame. cbn. by rewrite Hh1. }
    destruct r; by intros [= _ <-].
  - intros resp w' Hother. rewrite api_answer_run.
    destruct (api_answer_try cfg C question cid data w) as [r w1] eqn:E.
    assert (same_history w w1) as Hsame.
    { eapply keeps_api_answer_try; [apply _ | apply keeps_log_history
        | apply keeps_write_history | | exact E].
      apply keeps_select_llm_other; [apply _ | done]. }
    destruct r; by intros [= _ <-].
Qed.

Lemma history_reversed_in_place_witness :
  (1 < length (chat_history (Demo.start [Demo.turn1; Demo.turn2])))%nat
  ∧ chat_history (stream_messages (Demo.settings "openai_chat")
                    (Demo.backend Demo.deltas42 "") (ChatOpenAI None) [] "q?"
                    (Demo.start [Demo.turn1; Demo.turn2])).2
    = reverse [Demo.turn1; Demo.turn2]
  ∧ chat_history (answer_messages (Demo.settings "openai_chat")
                    (Demo.backend Demo.deltas42 "") (ChatOpenAI None)
                    (Demo.start [Demo.turn1; Demo.turn2])).2
    = reverse [Demo.turn1; Demo.turn2]
  ∧ (∃ w',
       complete_stream (Demo.settings "openai_chat") (Demo.backend Demo.deltas42 "")
         "q?" Demo.docsearch None (Demo.start [Demo.turn1; Demo.turn2]) = (inr (), w')
       ∧ chat_history w' = reverse [Demo.turn1; Demo.turn2])
  ∧ (∃ resp w',
       api_answer (Demo.settings "openai_chat") (Demo.backend Demo.deltas42 "") "q?"
         None ∅ (Demo.start [Demo.turn1; Demo.turn2]) = (resp, w')
       ∧ chat_history w' = reverse [Demo.turn1; Demo.turn2])
  ∧ (∃ e w',
       api_answer (Demo.settings "openai_chat") Fixtures.broken "q?"
         None ∅ (Demo.start [Demo.turn1; Demo.turn2])
       = (bad_request 500 e, w')
       ∧ chat_history w' = reverse [Demo.turn1; Demo.turn2])
  ∧ (∃ resp w',
       api_answer (Demo.settings "openai") (Demo.backend Demo.deltas42 "") "q?"
         None ∅ (Demo.start [Demo.turn1; Demo.turn2]) = (resp, w')
       ∧ chat_history w' = [Demo.turn1; Demo.turn2]).
Proof.
  pose proof (history_reversed_in_place (Demo.settings "openai_chat")
                (Demo.backend Demo.deltas42 "") "q?" Demo.docsearch None ∅
                (Demo.start [Demo.turn1; Demo.turn2]) ltac:(simpl; lia))
    as (Hstep & Hprompt & Hstream & Hanswer & _).
  pose proof (history_reversed_in_place (Demo.settings "openai_chat")
                Fixtures.broken "q?" Demo.docsearch None ∅
                (Demo.start [Demo.turn1; Demo.turn2]) ltac:(simpl; lia))
    as (_ & _ & _ & Hbroken & _).
  pose proof (history_reversed_in_place (Demo.settings "openai")
                (Demo.backend Demo.deltas42 "") "q?" Demo.docsearch None ∅
                (Demo.start [Demo.turn1; Demo.turn2]) ltac:(simpl; lia))
    as (_ & _ & _ & _ & Hother).
  split; [simpl; lia|]. split; [apply Hstep|]. split; [by apply Hprompt|].
  split; [|split; [|split]].
  - eexists. split; [vm_compute; reflexivity|].
    apply Hstream. vm_compute. reflexivity.
  - eexists _, _. split; [vm_compute; reflexivity|].
    eapply (Hanswer "application/" Demo.docsearch); [reflexivity | reflexivity
      | vm_compute; reflexivity | reflexivity | vm_compute; reflexivity].
  - eexists _, _. split; [vm_compute; reflexivity|].
    eapply (Hbroken "application/" Demo.docsearch); [reflexivity | reflexivity
      | vm_compute; reflexivity | reflexivity | vm_compute; reflexivity].
  - eexists _, _. split; [vm_compute; reflexivity|].
    eapply Hother; [done | vm_compute; reflexivity].
Defined.

(** ** Which index is loaded *)

Lemma get_docsearch_supported cfg C vectorstore (w : world) :
  embeddings_supported cfg = true →
  get_docsearch cfg C vectorstore w
  = (load_local C vectorstore, with_calls w [CallLoadLocal vectorstore]).
Proof.
  unfold embeddings_supported, get_docsearch. intros ->. reflexivity.
Qed.

Lemma calls_grow_after (w w1 w' : world) (c : call) :
  calls w1 = calls w ++ [c] → calls_grow w1 w' →
  ∃ cs, calls w' = calls w ++ c :: cs.
Proof. intros H1 [cs Hcs]. exists cs. by rewrite Hcs, H1, <- app_assoc. Qed.

(** X8: for a request that names no collection the two endpoints load
    different indexes: [stream] hands the empty path to the index loader,
    [api_answer] the application root.  In both the index load is the
    first call made. *)
Theorem absent_selector_index_paths cfg C question cid data (w w' : world) :
  embeddings_supported cfg = true →
  data !! "active_docs" = None →
  (∀ r, stream cfg C question cid data w = (r, w') →
        ∃ cs, calls w' = calls w ++ CallLoadLocal "" :: cs)
  ∧ (∀ resp, api_answer cfg C question cid data w = (resp, w') →
             ∃ cs, calls w' = calls w ++ CallLoadLocal "application/" :: cs).
Proof.
  intros Hemb Hnone. split.
  - intros r. unfold stream. rewrite Hnone, bind_run. cbn [mret M_ret].
    rewrite bind_run, get_docsearch_supported by done.
    destruct (load_local C "") as [e|idx].
    + intros [= _ <-]. by exists [].
    + intros H.
      eapply (calls_grow_after w (with_calls w [CallLoadLocal ""])); [done|].
      eapply keeps_complete_stream; [apply _ | apply keeps_log_calls
        | apply keeps_write_calls | apply keeps_reverse_calls
        | apply keeps_yield_calls | exact H].
  - intros resp. rewrite api_answer_run. unfold api_answer_try.
    assert (get_vectorstore data = inr "application/") as ->
      by (unfold get_vectorstore; by rewrite Hnone).
    rewrite bind_run. unfold lift at 1.
    rewrite bind_run, get_docsearch_supported by done.
    destruct (load_local C "application/") as [e|idx].
    + intros [= _ <-]. by exists [].
    + match goal with
      | |- context [match ?run with _ => _ end] => destruct run as [r w1] eqn:E
      end.
      assert (∃ cs, calls w1 = calls w ++ CallLoadLocal "application/" :: cs) as Hw1.
      { eapply (calls_grow_after w (with_calls w [CallLoadLocal "application/"]));
          [done|].
        eapply (keeps_answer_tail calls_grow cfg C keeps_log_calls keeps_write_calls
                  question cid idx); [|exact E].
        apply keeps_select_llm; [apply _ | apply keeps_reverse_calls]. }
      destruct r; by intros [= _ <-].
Qed.

Lemma absent_selector_index_paths_witness :
  embeddings_supported (Demo.settings "openai_chat") = true
  ∧ (∅ : gmap string string) !! "active_docs" = None
  ∧ ∃ resp w' cs,
      api_answer (Demo.settings "openai_chat") (Demo.backend [] "fine") "q?" None ∅
        (Demo.start []) = (resp, w')
      ∧ calls w' = calls (Demo.start []) ++ CallLoadLocal "application/" :: cs.
Proof.
  split; [reflexivity|]. split; [apply lookup_empty|].
  pose (run := api_answer (Demo.settings "openai_chat") (Demo.backend [] "fine") "q?"
                 None ∅ (Demo.start [])).
  assert (run = (run.1, run.2)) as Hrun by (vm_compute; reflexivity).
  destruct (proj2 (absent_selector_index_paths (Demo.settings "openai_chat")
                     (Demo.backend [] "fine") "q?" None ∅ (Demo.start []) run.2
                     eq_refl (lookup_empty _)) run.1 Hrun) as [cs Hcs].
  exists run.1, run.2, cs. split; [exact Hrun | exact Hcs].
Defined.

(** ** The self-hosted model *)

Example self_hosted_run :
  api_answer Fixtures.self_hosted (Demo.backend [] "fine") "q?" None ∅ (Demo.start [])
  = (bad_request 500 (UnboundLocalError "p_chat_combine"),
     with_calls (Demo.start []) [CallLoadLocal "application/"]).
Proof. vm_compute. reflexivity. Qed.

(** X9: with the self-hosted model switched on and a model name other
    than the chat model, [api_answer] never answers: whatever the request
    and the collaborators, the response is an error. *)
Theorem self_hosted_never_answers cfg C question cid data (w w' : world) (r : result) :
  SELF_HOSTED_MODEL cfg = true →
  LLM_NAME cfg ≠ "openai_chat" →
  api_answer cfg C question cid data w ≠ (Ok r, w').
Proof.
  intros Hself Hother H.
  apply api_answer_ok in H
    as (w1 & w2 & w3 & l & p & idx & raw & _ & Hsel & Hrun & _).
  unfold select_llm in Hsel. rewrite bool_decide_eq_false_2 in Hsel by done.
  rewrite Hself in Hsel.
  assert (p = None) as -> by (case_bool_decide; by injection Hsel as _ <- _).
  unfold run_answer_chain in Hrun.
  rewrite bool_decide_eq_false_2, Hself in Hrun by done. done.
Qed.

Lemma self_hosted_never_answers_witness :
  SELF_HOSTED_MODEL Fixtures.self_hosted = true
  ∧ LLM_NAME Fixtures.self_hosted ≠ "openai_chat"
  ∧ ∀ r w', api_answer Fixtures.self_hosted (Demo.backend [] "fine") "q?" None ∅
              (Demo.start []) ≠ (Ok r, w').
Proof.
  split; [reflexivity|]. split; [done|]. intros r w'.
  apply (self_hosted_never_answers Fixtures.self_hosted (Demo.backend [] "fine") "q?"
           None ∅ (Demo.start []) w' r); [reflexivity | done].
Defined.

(** ** Creating, extending, fetching and deleting conversations *)

Lemma saved_created C (q : query) (db db' : gmap oid conversation) (id : string) :
  saved C None q db db' id →
  ∃ name,
    id = Bson.str (fresh (dom db))
    ∧ db !! fresh (dom db) = None
    ∧ db' = <[fresh (dom db) := {| c_user := "local"; c_date := utcnow C;
                                   c_name := name; c_queries := [q] |}]> db.
Proof.
  intros (name & -> & ->). exists name. split; [done|]. split; [|done].
  apply not_elem_of_dom, is_fresh.
Qed.

Lemma saved_appended C (cid : string) (q : query) (db db' : gmap oid conversation)
    (id : string) (o : oid) (c : conversation) :
  saved C (Some cid) q db db' id →
  Bson.ObjectId cid = inr o → db !! o = Some c →
  id = cid ∧ db' = <[o := pushed c q]> db.
Proof.
  intros (-> & o' & Ho' & ->) Ho Hc. rewrite Ho in Ho'. injection Ho' as <-.
  by rewrite Hc.
Qed.

(** X10: a request without conversation identifier that is answered
    creates exactly one conversation: it is stored under an identifier
    that was free, is owned by [local], holds the one exchange of the
    request, and every conversation that was there is left as it was. *)
Theorem answer_creates_one_conversation cfg C question data (w w' : world) (r : result) :
  api_answer cfg C question None data w = (Ok r, w') →
  ∃ o c,
    r_conversation_id r = Bson.str o
    ∧ conversations_collection w !! o = None
    ∧ conversations_collection w' !! o = Some c
    ∧ c_user c = "local"
    ∧ c_queries c = [{| q_prompt := question; q_response := r_answer r;
                        q_sources := r_sources r |}]
    ∧ size (conversations_collection w') = Datatypes.S (size (conversations_collection w))
    ∧ ∀ o', o' ≠ o →
        conversations_collection w' !! o' = conversations_collection w !! o'.
Proof.
  intros H.
  apply api_answer_ok in H as (_ & _ & _ & _ & _ & _ & _ & _ & _ & _ & _ & _ & _ & Hs).
  apply saved_created in Hs as (name & Hid & Hfree & ->).
  eexists _, _. split; [exact Hid|]. split; [exact Hfree|].
  split; [apply lookup_insert_eq|]. split; [done|]. split; [done|].
  split; [by apply map_size_insert_None|].
  intros o' Hne. by rewrite lookup_insert_ne.
Qed.

Lemma answer_creates_one_conversation_witness :
  ∃ r w',
    api_answer (Demo.settings "openai_chat") (Demo.backend [] "fine") "q?" None ∅
      Fixtures.one_conversation = (Ok r, w')
    ∧ ∃ o c,
        r_conversation_id r = Bson.str o
        ∧ conversations_collection Fixtures.one_conversation !! o = None
        ∧ conversations_collection w' !! o = Some c
        ∧ c_user c = "local"
        ∧ c_queries c = [{| q_prompt := "q?"; q_response := r_answer r;
                            q_sources := r_sources r |}]
        ∧ size (conversations_collection w')
          = Datatypes.S (size (conversations_collection Fixtures.one_conversation))
        ∧ ∀ o', o' ≠ o →
            conversations_collection w' !! o'
            = conversations_collection Fixtures.one_conversation !! o'.
Proof.
  eexists _, _. split; [vm_compute; reflexivity|].
  eapply (answer_creates_one_conversation (Demo.settings "openai_chat")
            (Demo.backend [] "fine") "q?" ∅ Fixtures.one_conversation).
  vm_compute. reflexivity.
Defined.

Lemma streamed_answer_sources (docs : list Document) :
  omap (λ f, match frame_payload f with PAnswer a => Some a | _ => None end)
    (source_frame <$> docs) = [].
Proof. induction docs as [|doc docs IH]; [done | exact IH]. Qed.

Lemma streamed_answer_increments (parts : list string) :
  omap (λ f, match frame_payload f with PAnswer a => Some a | _ => None end)
    (answer_frame <$> parts) = parts.
Proof.
  induction parts as [|x parts IH]; [done|].
  cbn [fmap list_fmap omap list_omap answer_frame frame_payload]. by rewrite IH.
Qed.

Lemma saved_extended C (cid : string) (q : query) (db db' : gmap oid conversation)
    (id : string) (o : oid) (c : conversation) :
  saved C (Some cid) q db db' id →
  Bson.ObjectId cid = inr o → db !! o = Some c →
  id = cid ∧ extended o c q db db'.
Proof.
  intros Hs Ho Hc. destruct (saved_appended _ _ _ _ _ _ _ _ Hs Ho Hc) as [-> ->].
  split; [done|]. split; [apply lookup_insert_eq|]. split.
  - by apply dom_insert_lookup_L.
  - intros o' Hne. by rewrite lookup_insert_ne.
Qed.

(** X11: a request that names an existing conversation and is served adds
    exactly one exchange at the end of that conversation: the earlier
    exchanges, the title, the date and the owner stay, no conversation is
    added or removed and every other one is left as it was.  [api_answer]
    hands back the identifier of the request; the exchange
    [complete_stream] saves holds the question and the increments put
    together. *)
Theorem request_extends_conversation cfg C question cid data idx (o : oid)
    (c : conversation) (w w' : world) :
  Bson.ObjectId cid = inr o →
  conversations_collection w !! o = Some c →
  (∀ r, api_answer cfg C question (Some cid) data w = (Ok r, w') →
        r_conversation_id r = cid
        ∧ extended o c {| q_prompt := question; q_response := r_answer r;
                          q_sources := r_sources r |}
            (conversations_collection w) (conversations_collection w'))
  ∧ (complete_stream cfg C question idx (Some cid) w = (inr (), w') →
     ∃ frames sources,
       emitted w' = emitted w ++ frames
                    ++ [Frame "data: " (PId cid); Frame "data: " PEnd]
       ∧ extended o c {| q_prompt := question; q_response := streamed_answer frames;
                         q_sources := sources |}
           (conversations_collection w) (conversations_collection w')).
Proof.
  intros Ho Hc. split.
  - intros r H.
    apply api_answer_ok in H
      as (_ & _ & _ & _ & _ & _ & _ & _ & _ & _ & _ & _ & _ & Hs).
    by eapply saved_extended.
  - intros H.
    apply complete_stream_normal in H
      as (w1 & wm & msgs & completion & logs & id & _ & _ & _ & _ & He & Hs).
    destruct (saved_extended _ _ _ _ _ _ _ _ Hs Ho Hc) as [-> Hext].
    exists ((source_frame <$> similarity_search idx question 2)
            ++ (answer_frame <$> increments completion)), logs.
    split; [rewrite He; by rewrite <- (app_assoc (source_frame <$> _))|].
    unfold streamed_answer.
    by rewrite omap_app, streamed_answer_sources, streamed_answer_increments.
Qed.

Lemma request_extends_conversation_witness :
  Bson.ObjectId Demo.absent_id = inr 255%N
  ∧ conversations_collection Fixtures.one_conversation !! 255%N = Some Fixtures.stored
  ∧ ∃ r w',
      api_answer (Demo.settings "openai_chat") (Demo.backend [] "fine") "q?"
        (Some Demo.absent_id) ∅ Fixtures.one_conversation = (Ok r, w')
      ∧ r_conversation_id r = Demo.absent_id
      ∧ extended 255%N Fixtures.stored
          {| q_prompt := "q?"; q_response := r_answer r; q_sources := r_sources r |}
          (conversations_collection Fixtures.one_conversation)
          (conversations_collection w').
Proof.
  split; [reflexivity|]. split; [reflexivity|].
  eexists _, _. split; [vm_compute; reflexivity|].
  eapply (proj1 (request_extends_conversation (Demo.settings "openai_chat")
                   (Demo.backend [] "fine") "q?" Demo.absent_id ∅ Demo.docsearch
                   255%N Fixtures.stored Fixtures.one_conversation _
                   eq_refl eq_refl)).
  vm_compute. reflexivity.
Defined.

(** X12: the identifier in the id frame of a stream that created a
    conversation fetches that conversation: [get_single_conversation]
    answers with the one exchange, whose response is the increments put
    together. *)
Theorem streamed_conversation_is_fetched cfg C question idx generated (w w' : world) :
  (fresh (dom (conversations_collection w)) < oid_bound)%N →
  complete_stream cfg C question idx None w = (inr (), w') →
  ∃ id frames response sources,
    emitted w' = emitted w ++ frames
                 ++ [Frame "data: " (PId id); Frame "data: " PEnd]
    ∧ response = streamed_answer frames
    ∧ get_single_conversation generated (Some id) w'
      = inr [{| q_prompt := question; q_response := response; q_sources := sources |}].
Proof.
  intros Hfits H.
  apply complete_stream_normal in H
    as (w1 & wm & msgs & completion & logs & id & _ & _ & _ & _ & He & Hs).
  apply saved_created in Hs as (name & -> & _ & Hdb).
  exists (Bson.str (fresh (dom (conversations_collection w)))),
    ((source_frame <$> similarity_search idx question 2)
     ++ (answer_frame <$> increments completion)),
    (joined (increments completion)), logs.
  split; [rewrite He; by rewrite <- (app_assoc (source_frame <$> _))|]. split.
  - unfold streamed_answer.
    by rewrite omap_app, streamed_answer_sources, streamed_answer_increments.
  - unfold get_single_conversation, arg_ObjectId.
    rewrite (proj2 (ObjectId_str _ Hfits)), Hdb, lookup_insert_eq. done.
Qed.

Lemma streamed_conversation_is_fetched_witness :
  (fresh (dom (conversations_collection (Demo.start []))) < oid_bound)%N
  ∧ ∃ w',
      complete_stream (Demo.settings "openai_chat") (Demo.backend Demo.deltas42 "")
        "q?" Demo.docsearch None (Demo.start []) = (inr (), w')
      ∧ ∃ id frames response sources,
          emitted w' = emitted (Demo.start []) ++ frames
                       ++ [Frame "data: " (PId id); Frame "data: " PEnd]
          ∧ response = streamed_answer frames
          ∧ get_single_conversation 0%N (Some id) w'
            = inr [{| q_prompt := "q?"; q_response := response;
                      q_sources := sources |}].
Proof.
  split; [vm_compute; reflexivity|].
  eexists. split; [vm_compute; reflexivity|].
  eapply (streamed_conversation_is_fetched (Demo.settings "openai_chat")
            (Demo.backend Demo.deltas42 "") "q?" Demo.docsearch 0%N (Demo.start []));
    vm_compute; reflexivity.
Defined.

(** X13: creating a conversation and then extending it compose: when a
    request without identifier is answered and a second request carries
    the identifier that was handed back, the conversation holds the two
    exchanges in order, and the second answer carries the same
    identifier. *)
Theorem create_then_extend cfg1 C1 cfg2 C2 question1 question2 data1 data2
    (w w1 w2 : world) (r1 r2 : result) :
  (fresh (dom (conversations_collection w)) < oid_bound)%N →
  api_answer cfg1 C1 question1 None data1 w = (Ok r1, w1) →
  api_answer cfg2 C2 question2 (Some (r_conversation_id r1)) data2 w1 = (Ok r2, w2) →
  r_conversation_id r2 = r_conversation_id r1
  ∧ ∃ o c,
      conversations_collection w !! o = None
      ∧ conversations_collection w2 !! o = Some c
      ∧ c_queries c
        = [{| q_prompt := question1; q_response := r_answer r1;
              q_sources := r_sources r1 |};
           {| q_prompt := question2; q_response := r_answer r2;
              q_sources := r_sources r2 |}]
      ∧ size (conversations_collection w2)
        = Datatypes.S (size (conversations_collection w)).
Proof.
  intros Hfits H1 H2.
  apply api_answer_ok in H1 as (_ & _ & _ & _ & _ & _ & _ & _ & _ & _ & _ & _ & _ & Hs1).
  apply api_answer_ok in H2 as (_ & _ & _ & _ & _ & _ & _ & _ & _ & _ & _ & _ & _ & Hs2).
  apply saved_created in Hs1 as (name & Hid & Hfree & Hdb1).
  set (o := fresh (dom (conversations_collection w))) in *.
  assert (Bson.ObjectId (r_conversation_id r1) = inr o) as Ho
    by (rewrite Hid; by apply ObjectId_str).
  assert (conversations_collection w1 !! o = Some _) as Hc
    by (rewrite Hdb1; apply lookup_insert_eq).
  destruct (saved_appended _ _ _ _ _ _ _ _ Hs2 Ho Hc) as [Hid2 Hdb2].
  split; [done|]. eexists o, _. split; [done|].
  split; [rewrite Hdb2; apply lookup_insert_eq|]. split; [done|].
  rewrite Hdb2, Hdb1, insert_insert_eq. by apply map_size_insert_None.
Qed.

Lemma create_then_extend_witness :
  (fresh (dom (conversations_collection (Demo.start []))) < oid_bound)%N
  ∧ ∃ r1 w1 r2 w2,
      api_answer (Demo.settings "openai_chat") (Demo.backend [] "one") "first?" None ∅
        (Demo.start []) = (Ok r1, w1)
      ∧ api_answer (Demo.settings "openai_chat") (Demo.backend [] "two") "second?"
          (Some (r_conversation_id r1)) ∅ w1 = (Ok r2, w2)
      ∧ r_conversation_id r2 = r_conversation_id r1
      ∧ ∃ o c,
          conversations_collection (Demo.start []) !! o = None
          ∧ conversations_collection w2 !! o = Some c
          ∧ c_queries c
            = [{| q_prompt := "first?"; q_response := r_answer r1;
                  q_sources := r_sources r1 |};
               {| q_prompt := "second?"; q_response := r_answer r2;
                  q_sources := r_sources r2 |}]
          ∧ size (conversations_collection w2)
            = Datatypes.S (size (conversations_collection (Demo.start []))).
Proof.
  split; [vm_compute; reflexivity|].
  eexists _, _, _, _. split; [vm_compute; reflexivity|].
  split; [vm_compute; reflexivity|].
  eapply (create_then_extend (Demo.settings "openai_chat") (Demo.backend [] "one")
            (Demo.settings "openai_chat") (Demo.backend [] "two") "first?" "second?" ∅ ∅
            (Demo.start [])); vm_compute; reflexivity.
Defined.

(** X14: deleting a conversation by the identifier a creating stream
    handed out puts the collection back as it was before the stream. *)
Theorem create_then_delete cfg C question idx generated (w w' : world) :
  (fresh (dom (conversations_collection w)) < oid_bound)%N →
  complete_stream cfg C question idx None w = (inr (), w') →
  ∃ id frames w'',
    emitted w' = emitted w ++ frames
                 ++ [Frame "data: " (PId id); Frame "data: " PEnd]
    ∧ delete_conversation generated (Some id) w' = (inr "ok", w'')
    ∧ conversations_collection w'' = conversations_collection w.
Proof.
  intros Hfits H.
  apply complete_stream_normal in H
    as (w1 & wm & msgs & completion & logs & id & _ & _ & _ & _ & He & Hs).
  apply saved_created in Hs as (name & -> & Hfree & Hdb).
  eexists _, ((source_frame <$> similarity_search idx question 2)
              ++ (answer_frame <$> increments completion)), _.
  split; [rewrite He; by rewrite <- (app_assoc (source_frame <$> _))|].
  unfold delete_conversation, arg_ObjectId.
  rewrite (proj2 (ObjectId_str _ Hfits)). split; [done|].
  cbn [conversations_collection]. rewrite Hdb. by apply delete_insert_id.
Qed.

Lemma create_then_delete_witness :
  (fresh (dom (conversations_collection Fixtures.one_conversation)) < oid_bound)%N
  ∧ ∃ w',
      complete_stream (Demo.settings "openai_chat") (Demo.backend Demo.deltas42 "")
        "q?" Demo.docsearch None Fixtures.one_conversation = (inr (), w')
      ∧ ∃ id frames w'',
          emitted w' = emitted Fixtures.one_conversation ++ frames
                       ++ [Frame "data: " (PId id); Frame "data: " PEnd]
          ∧ delete_conversation 0%N (Some id) w' = (inr "ok", w'')
          ∧ conversations_collection w''
            = conversations_collection Fixtures.one_conversation.
Proof.
  split; [vm_compute; reflexivity|].
  eexists. split; [vm_compute; reflexivity|].
  eapply (create_then_delete (Demo.settings "openai_chat")
            (Demo.backend Demo.deltas42 "") "q?" Demo.docsearch 0%N
            Fixtures.one_conversation); vm_compute; reflexivity.
Defined.



(** ** What the budget guarantees *)

Section BudgetFacts.

Context (cost : string → Z) (max_tokens : Z).

Lemma charged_some (t : turn) (c : Z) : turn_cost cost t = Some c → charged cost t = c.
Proof. unfold charged. by intros ->. Qed.

Lemma total_cost_cons (t : turn) (turns : list turn) :
  total_cost cost (t :: turns) = charged cost t + total_cost cost turns.
Proof. reflexivity. Qed.

Lemma total_cost_app (a b : list turn) :
  total_cost cost (a ++ b) = total_cost cost a + total_cost cost b.
Proof.
  induction a as [|t a IH]; [done|].
  rewrite <- app_comm_cons, !total_cost_cons, IH. lia.
Qed.

Lemma total_cost_reverse (turns : list turn) :
  total_cost cost (reverse turns) = total_cost cost turns.
Proof.
  induction turns as [|t turns IH]; [done|].
  rewrite reverse_cons, total_cost_app, IH, !total_cost_cons.
  change (total_cost cost []) with 0. lia.
Qed.

(** The running total never reaches the ceiling. *)
Lemma keep_below (total : Z) (turns : list turn) :
  keep cost max_tokens total turns = []
  ∨ total + total_cost cost (keep cost max_tokens total turns) < max_tokens.
Proof.
  revert total. induction turns as [|t turns IH]; intros total; [by left|].
  cbn [keep]. destruct (turn_cost cost t) as [c|] eqn:Hc; [|apply IH].
  case_bool_decide as Hlt; [|apply IH]. right.
  rewrite total_cost_cons, (charged_some _ _ Hc).
  destruct (IH (total + c)) as [-> | H].
  - change (total_cost cost []) with 0. lia.
  - lia.
Qed.

Hypothesis cost_nonneg : ∀ s, 0 ≤ cost s.

Lemma charged_nonneg (t : turn) : 0 ≤ charged cost t.
Proof.
  unfold charged, turn_cost.
  destruct (t !! "prompt") as [p|]; [destruct (t !! "response") as [r|]|]; try done.
  pose proof (cost_nonneg p). pose proof (cost_nonneg r). lia.
Qed.

Lemma total_cost_nonneg (turns : list turn) : 0 ≤ total_cost cost turns.
Proof.
  induction turns as [|t turns IH]; [done|].
  rewrite total_cost_cons. pose proof (charged_nonneg t). lia.
Qed.

(** Once the running total has reached the ceiling nothing is kept. *)
Lemma keep_none (total : Z) (turns : list turn) :
  max_tokens ≤ total → keep cost max_tokens total turns = [].
Proof.
  intros Hmax. induction turns as [|t turns IH]; [done|].
  cbn [keep]. destruct (turn_cost cost t) as [c|] eqn:Hc; [|done].
  rewrite bool_decide_eq_false_2; [done|].
  pose proof (charged_nonneg t) as Hn. rewrite (charged_some _ _ Hc) in Hn. lia.
Qed.

(** Turns that fit together are all kept. *)
Lemma keep_all (total : Z) (turns : list turn) :
  Forall complete turns →
  total + total_cost cost turns < max_tokens →
  keep cost max_tokens total turns = turns.
Proof.
  intros Hall. revert total. induction Hall as [|t turns [[p Hp] [r Hr]] _ IH];
    intros total Hfit; [done|].
  cbn [keep]. rewrite total_cost_cons in Hfit.
  assert (turn_cost cost t = Some (cost p + cost r)) as Hc
    by (unfold turn_cost; by rewrite Hp, Hr).
  rewrite (charged_some _ _ Hc) in Hfit. rewrite Hc.
  pose proof (total_cost_nonneg turns).
  rewrite bool_decide_eq_true_2 by lia. f_equal. apply IH. lia.
Qed.

End BudgetFacts.

Lemma stream_messages_keep cfg C l msgs question (w : world) :
  (stream_messages cfg C l msgs question w).1
  = inr (msgs
         ++ flat_map (turn_messages (Msg system))
              (if bool_decide (1 < length (chat_history w))%nat
               then keep (get_num_tokens C l) (TOKENS_MAX_HISTORY cfg) 0
                      (reverse (chat_history w))
               else [])
         ++ [Msg user question]).
Proof.
  case_bool_decide.
  - rewrite stream_messages_long by done. cbn [fst].
    by rewrite budget_loop_keep, <- app_assoc.
  - rewrite stream_messages_short by lia. done.
Qed.

Lemma answer_messages_keep cfg C l (w : world) :
  (answer_messages cfg C l w).1
  = (parse_template C (chat_combine_template cfg);;
     assembled cfg C
       (keep (get_num_tokens C l) (TOKENS_MAX_HISTORY cfg) 0
          (reverse (chat_history w)))).
Proof.
  rewrite answer_messages_run, exn_bind_run.
  by destruct (parse_template C (chat_combine_template cfg)).
Qed.

(** X16: the history that reaches the prompt stays under the ceiling: in
    both handlers the prompt is the opening messages, the messages of some
    turns taken from the reversed history, and the closing message, and
    the costs of those turns add up to strictly less than
    [TOKENS_MAX_HISTORY] unless no turn was taken.  The synchronous
    handler parses the system template and the texts of those turns as
    prompt templates first, and raises the parser's error when one is
    rejected. *)
Theorem prompt_history_under_ceiling cfg C l msgs question (w : world) :
  (∃ kept,
     sublist kept (reverse (chat_history w))
     ∧ (kept = [] ∨ total_cost (get_num_tokens C l) kept < TOKENS_MAX_HISTORY cfg)
     ∧ (stream_messages cfg C l msgs question w).1
       = inr (msgs ++ flat_map (turn_messages (Msg system)) kept
              ++ [Msg user question]))
  ∧ (∃ kept,
       sublist kept (reverse (chat_history w))
       ∧ (kept = [] ∨ total_cost (get_num_tokens C l) kept < TOKENS_MAX_HISTORY cfg)
       ∧ (answer_messages cfg C l w).1
         = (parse_template C (chat_combine_template cfg);; assembled cfg C kept)).
Proof.
  pose proof (keep_below (get_num_tokens C l) (TOKENS_MAX_HISTORY cfg) 0
                (reverse (chat_history w))) as Hbelow.
  rewrite Z.add_0_l in Hbelow.
  split.
  - eexists. split; [|split; [|apply stream_messages_keep]].
    + case_bool_decide; [apply keep_sublist | apply sublist_nil_l].
    + case_bool_decide; [exact Hbelow | by left].
  - eexists. split; [apply keep_sublist|]. split; [exact Hbelow|].
    apply answer_messages_keep.
Qed.

(** X17: with a ceiling of zero or less and a tokenizer that never counts
    below zero, no history turn reaches the prompt of either handler: the
    synchronous handler parses the system template and no history text,
    and its prompt is the system message and the question placeholder. *)
Theorem no_budget_no_history cfg C l msgs question (w : world) :
  (∀ s, 0 ≤ get_num_tokens C l s) →
  TOKENS_MAX_HISTORY cfg ≤ 0 →
  (stream_messages cfg C l msgs question w).1 = inr (msgs ++ [Msg user question])
  ∧ (answer_messages cfg C l w).1
    = (parse_template C (chat_combine_template cfg);;
       inr [Msg system (chat_combine_template cfg); Msg user "{question}"]).
Proof.
  intros Hcost Hmax.
  rewrite stream_messages_keep, answer_messages_keep.
  rewrite keep_none by done. by case_bool_decide.
Qed.

Lemma no_budget_no_history_witness :
  (∀ s, 0 ≤ get_num_tokens (Demo.backend [] "") (ChatOpenAI None) s)
  ∧ TOKENS_MAX_HISTORY (Fixtures.tight "openai_chat") ≤ 0
  ∧ (stream_messages (Fixtures.tight "openai_chat") (Demo.backend [] "")
       (ChatOpenAI None) [] "q" (Demo.start [Demo.turn1; Demo.turn2])).1
    = inr ([] ++ [Msg user "q"])
  ∧ (answer_messages (Fixtures.tight "openai_chat") (Demo.backend [] "")
       (ChatOpenAI None) (Demo.start [Demo.turn1; Demo.turn2])).1
    = inr [Msg system "No placeholder here"; Msg user "{question}"].
Proof.
  split; [intros s; simpl; lia|]. split; [done|].
  apply (no_budget_no_history (Fixtures.tight "openai_chat") (Demo.backend [] "")
           (ChatOpenAI None) [] "q" (Demo.start [Demo.turn1; Demo.turn2]));
    [intros s; simpl; lia | done].
Defined.

(** X18: when every turn has both fields, the tokenizer never counts below
    zero and the costs of all turns together are strictly below the
    ceiling, the whole history is taken, newest turn first: in
    [complete_stream] for more than one turn, in [api_answer] always.
    [api_answer] parses the system template and every text of the history
    as a prompt template; when the parser accepts them all the whole
    history stands in the prompt, otherwise the parser's first error is
    raised. *)
Theorem fitting_history_is_kept_whole cfg C l msgs question (w : world) :
  (∀ s, 0 ≤ get_num_tokens C l s) →
  Forall complete (chat_history w) →
  total_cost (get_num_tokens C l) (chat_history w) < TOKENS_MAX_HISTORY cfg →
  (answer_messages cfg C l w).1
  = (parse_template C (chat_combine_template cfg);;
     assembled cfg C (reverse (chat_history w)))
  ∧ ((1 < length (chat_history w))%nat →
     (stream_messages cfg C l msgs question w).1
     = inr (msgs
            ++ flat_map (turn_messages (Msg system)) (reverse (chat_history w))
            ++ [Msg user question])).
Proof.
  intros Hcost Hall Hfit.
  assert (keep (get_num_tokens C l) (TOKENS_MAX_HISTORY cfg) 0 (reverse (chat_history w))
          = reverse (chat_history w)) as Hkeep.
  { apply keep_all; [done | by apply Forall_reverse |].
    rewrite total_cost_reverse. lia. }
  split.
  - by rewrite answer_messages_keep, Hkeep.
  - intros Hlen. rewrite stream_messages_keep, Hkeep.
    by rewrite bool_decide_eq_true_2.
Qed.

Lemma fitting_history_is_kept_whole_witness :
  (∀ s, 0 ≤ get_num_tokens (Demo.backend [] "") (ChatOpenAI None) s)
  ∧ Forall complete (chat_history (Demo.start [Demo.turn1; Demo.turn2]))
  ∧ total_cost (get_num_tokens (Demo.backend [] "") (ChatOpenAI None))
      (chat_history (Demo.start [Demo.turn1; Demo.turn2]))
    < TOKENS_MAX_HISTORY (Demo.settings "openai_chat")
  ∧ (answer_messages (Demo.settings "openai_chat") (Demo.backend [] "")
       (ChatOpenAI None) (Demo.start [Demo.turn1; Demo.turn2])).1
    = inr ([Msg system (chat_combine_template (Demo.settings "openai_chat"))]
           ++ flat_map (turn_messages (Msg assistant))
                (reverse (chat_history (Demo.start [Demo.turn1; Demo.turn2])))
           ++ [Msg user "{question}"])
  ∧ (stream_messages (Demo.settings "openai_chat") (Demo.backend [] "")
       (ChatOpenAI None) [] "q" (Demo.start [Demo.turn1; Demo.turn2])).1
    = inr ([] ++ flat_map (turn_messages (Msg system))
                   (reverse (chat_history (Demo.start [Demo.turn1; Demo.turn2])))
              ++ [Msg user "q"]).
Proof.
  assert (Forall complete [Demo.turn1; Demo.turn2]) as Hall.
  { repeat constructor; eexists; vm_compute; reflexivity. }
  split; [intros s; simpl; lia|]. split; [exact Hall|].
  split; [vm_compute; reflexivity|].
  destruct (fitting_history_is_kept_whole (Demo.settings "openai_chat")
              (Demo.backend [] "") (ChatOpenAI None) [] "q"
              (Demo.start [Demo.turn1; Demo.turn2])) as [Hanswer Hstream];
    [intros s; simpl; lia | exact Hall | vm_compute; reflexivity |].
  split; [exact Hanswer | apply Hstream; simpl; lia].
Defined.

(** ** The prompt template and the logged sources *)



Section Titles.







End Titles.



Lemma collect_sources_ok (docs : list Document) (acc logs : list source_log) :
  collect_sources docs acc = inr logs → logs = acc ++ (answer_entry <$> docs).
Proof.
  revert acc. induction docs as [|doc docs IH]; intros acc.
  - intros [= <-]. by rewrite app_nil_r.
  - cbn [collect_sources]. case_bool_decide as Hmeta.
    + destruct (metadata doc !! "title") as [t|] eqn:Ht; [|done].
      cbn [mbind exn_bind]. intros H. apply IH in H as ->.
      rewrite <- app_assoc, fmap_cons. f_equal. cbn [app]. f_equal.
      unfold answer_entry. by rewrite Ht.
    + cbn [mbind exn_bind]. intros H. apply IH in H as ->.
      rewrite <- app_assoc, fmap_cons. f_equal. cbn [app]. f_equal.
      unfold answer_entry.
      assert (metadata doc = ∅) as -> by (by destruct (decide (metadata doc = ∅))).
      by rewrite lookup_empty.
Qed.

(** X21: the sources [api_answer] returns are the two best passages of the
    index it loaded, in rank order: each with the text of the passage and,
    as title, the metadata title in full, or the text when the passage has
    no metadata. *)
Theorem answer_sources_are_passages cfg C question cid data (w w' : world) (r : result) :
  api_answer cfg C question cid data w = (Ok r, w') →
  ∃ path idx,
    get_vectorstore data = inr path
    ∧ load_local C path = inr idx
    ∧ r_sources r = answer_entry <$> similarity_search idx question 2.
Proof.
  rewrite api_answer_run.
  destruct (api_answer_try cfg C question cid data w) as [[e|r0] w0] eqn:E; [done|].
  intros [= -> ->]. unfold api_answer_try in E.
  apply bind_ok in E as (path & ? & [Hpath ->]%lift_ok & E).
  apply bind_ok in E as (idx & w1 & Hload & E).
  apply bind_ok in E as ([l p] & w2 & _ & E).
  apply bind_ok in E as (raw & w3 & _ & E).
  rewrite bind_run, search_run in E.
  apply bind_ok in E as (sources & ? & [Hsrc ->]%lift_ok & E).
  apply bind_ok in E as (id & w4 & _ & E).
  injection E as <- _. cbn [r_sources].
  exists path, idx. split; [done|]. split.
  - unfold get_docsearch in Hload. destruct (_ || _); [|done].
    rewrite bind_run in Hload. cbn [log] in Hload.
    by apply lift_ok in Hload as [-> _].
  - apply collect_sources_ok in Hsrc. by rewrite Hsrc.
Qed.

Lemma answer_sources_are_passages_witness :
  ∃ r w',
    api_answer (Demo.settings "openai_chat") (Demo.backend [] "fine") "q?" None ∅
      (Demo.start []) = (Ok r, w')
    ∧ ∃ path idx,
        get_vectorstore ∅ = inr path
        ∧ load_local (Demo.backend [] "fine") path = inr idx
        ∧ r_sources r = answer_entry <$> similarity_search idx "q?" 2.
Proof.
  eexists _, _. split; [vm_compute; reflexivity|].
  eapply (answer_sources_are_passages (Demo.settings "openai_chat")
            (Demo.backend [] "fine") "q?" None ∅ (Demo.start [])).
  vm_compute. reflexivity.
Defined.

(** ** Requests that fail before anything is done *)

(** X22: [api_answer] answers with an error and leaves the world exactly as
    it was, without a single call, when the resolver raises on the
    selector or when the embeddings name is none of the four it knows: the
    error is the resolver's [IndexError], or the [UnboundLocalError] of the
    index that was never loaded. *)
Theorem misconfigured_request_does_nothing cfg C question cid data (w : world) :
  (∀ e, get_vectorstore data = inl e →
        api_answer cfg C question cid data w = (bad_request 500 e, w))
  ∧ (∀ path, get_vectorstore data = inr path → embeddings_supported cfg = false →
             api_answer cfg C question cid data w
             = (bad_request 500 (UnboundLocalError "docsearch"), w)).
Proof.
  split.
  - intros e He. rewrite api_answer_run. unfold api_answer_try.
    rewrite bind_run. unfold lift. by rewrite He.
  - intros path Hpath Hemb. rewrite api_answer_run. unfold api_answer_try.
    rewrite bind_run. unfold lift at 1. rewrite Hpath, bind_run.
    unfold get_docsearch. unfold embeddings_supported in Hemb. by rewrite Hemb.
Qed.

Lemma misconfigured_request_does_nothing_witness :
  get_vectorstore (selector "local") = inl IndexError
  ∧ api_answer (Demo.settings "openai_chat") (Demo.backend [] "fine") "q?" None
      (selector "local") (Demo.start [])
    = (bad_request 500 IndexError, Demo.start []).
Proof.
  split; [vm_compute; reflexivity|].
  apply (proj1 (misconfigured_request_does_nothing (Demo.settings "openai_chat")
                  (Demo.backend [] "fine") "q?" None (selector "local")
                  (Demo.start []))).
  vm_compute. reflexivity.
Defined.
